(** * A statement store over a property graph: resolvers and their queries

    Shallow embedding of [src/graphql/resolvers.ts], of the session wrapper of
    [src/neo4j.ts] and of the search route of [src/index.ts].

    JavaScript strings are modelled by [string]; a character stands for a
    UTF-16 code unit below 256 (the Latin-1 block), which fixes what
    [String.prototype.trim] and Cypher's [toLower] do on it. *)

From Stdlib Require Import String Ascii List ZArith Lia Bool Arith.
From Stdlib Require Import Permutation Sorted DecimalString.
Import ListNotations.
Local Open Scope list_scope.
Local Open Scope string_scope.
Set Warnings "-register-all".

(* ================================================================== *)
(** ** JavaScript string primitives used by the resolvers *)

Module Js.

(** White space of [trim]: TAB, LF, VT, FF, CR, SP and NBSP. *)
Definition is_space (c : ascii) : bool :=
  let n := nat_of_ascii c in
  (((9 <=? n) && (n <=? 13)) || (n =? 32) || (n =? 160))%nat.

Fixpoint trimStart (s : string) : string :=
  match s with
  | EmptyString => EmptyString
  | String c s' => if is_space c then trimStart s' else s
  end.

Fixpoint trimEnd (s : string) : string :=
  match s with
  | EmptyString => EmptyString
  | String c s' =>
      match trimEnd s' with
      | EmptyString => if is_space c then EmptyString else String c EmptyString
      | r => String c r
      end
  end.

(** [s.trim()] *)
Definition trim (s : string) : string := trimEnd (trimStart s).

(** [s.split(sep)] for a one-character separator: never the empty array. *)
Fixpoint split (sep : ascii) (s : string) : list string :=
  match s with
  | EmptyString => [EmptyString]
  | String c s' =>
      if Ascii.eqb c sep then EmptyString :: split sep s'
      else match split sep s' with
           | h :: t => String c h :: t
           | [] => [String c EmptyString]
           end
  end.

(** Truthiness of a string: every string but the empty one. *)
Definition truthy_string (s : string) : bool :=
  match s with EmptyString => false | _ => true end.

(** Truthiness of a possibly [undefined] string (array destructuring). *)
Definition truthy_field (o : option string) : bool :=
  match o with Some s => truthy_string s | None => false end.

(** Decimal rendering of a counter inside a template literal. *)
Definition string_of_nat (n : nat) : string :=
  NilZero.string_of_uint (Nat.to_uint n).

(** A [Set<string>]: insertion ordered, [add] ignores a member. *)
Definition set_add (x : string) (s : list string) : list string :=
  if existsb (String.eqb x) s then s else (s ++ [x])%list.

End Js.

(* ================================================================== *)
(** ** JSON values and [JSON.stringify] *)

(** A value as [JSON.stringify] meets it. [JNum z] stands for an integer
    that prints in plain decimal notation, below 10^21 in absolute value;
    the members of [JObj] come in the order JavaScript enumerates the keys
    of the object (integer-like keys first, then the others as inserted). *)
Inductive json : Type :=
| JNull
| JBool (b : bool)
| JNum (z : Z)
| JStr (s : string)
| JArr (items : list json)
| JObj (members : list (string * json)).

Module Json.

Definition hex_digit (n : nat) : ascii :=
  if (n <? 10)%nat then ascii_of_nat (48 + n) else ascii_of_nat (87 + n).

(** The quotation mark and the reverse solidus. *)
Definition dquote : ascii := ascii_of_nat 34.
Definition backslash : ascii := ascii_of_nat 92.

Definition two (a b : ascii) : string := String a (String b EmptyString).

(** One code unit inside a quoted JSON string. *)
Definition escape_char (c : ascii) : string :=
  let n := nat_of_ascii c in
  if (n =? 34)%nat then two backslash dquote
  else if (n =? 92)%nat then two backslash backslash
  else if (n =? 8)%nat then two backslash "b"
  else if (n =? 9)%nat then two backslash "t"
  else if (n =? 10)%nat then two backslash "n"
  else if (n =? 12)%nat then two backslash "f"
  else if (n =? 13)%nat then two backslash "r"
  else if (n <? 32)%nat then
    two backslash "u" ++ "00" ++ two (hex_digit (n / 16)) (hex_digit (n mod 16))
  else String c EmptyString.

Fixpoint escape (s : string) : string :=
  match s with
  | EmptyString => EmptyString
  | String c s' => escape_char c ++ escape s'
  end.

Definition quote (s : string) : string :=
  String dquote (escape s ++ String dquote EmptyString).

Definition string_of_Z (z : Z) : string :=
  NilZero.string_of_int (Z.to_int z).

Definition join_comma (parts : list string) : string :=
  String.concat "," parts.

(** [JSON.stringify(v)] without indentation. *)
Fixpoint stringify (v : json) : string :=
  match v with
  | JNull => "null"
  | JBool true => "true"
  | JBool false => "false"
  | JNum z => string_of_Z z
  | JStr s => quote s
  | JArr items =>
      "[" ++ join_comma (map stringify items) ++ "]"
  | JObj members =>
      "{" ++ join_comma
               (map (fun kv => quote (fst kv) ++ ":" ++ stringify (snd kv))
                    members) ++ "}"
  end.

(** Truthiness of a value that may be [undefined] ([None]). *)
Definition truthy (v : option json) : bool :=
  match v with
  | None => false
  | Some JNull => false
  | Some (JBool b) => b
  | Some (JNum z) => negb (Z.eqb z 0)
  | Some (JStr s) => Js.truthy_string s
  | Some (JArr _) => true
  | Some (JObj _) => true
  end.

(** [v || null] *)
Definition or_null (v : option json) : option json :=
  if truthy v then v else Some JNull.

End Json.

(* ================================================================== *)
(** ** The property graph and the Cypher text the resolvers send *)

Module Cypher.

(** [toLower] on one code unit: A-Z and the capital letters of Latin-1. *)
Definition lower_char (c : ascii) : ascii :=
  let n := nat_of_ascii c in
  if (((65 <=? n) && (n <=? 90))
      || ((192 <=? n) && (n <=? 222) && negb (n =? 215)))%nat
  then ascii_of_nat (n + 32) else c.

Fixpoint toLower (s : string) : string :=
  match s with
  | EmptyString => EmptyString
  | String c s' => String (lower_char c) (toLower s')
  end.

(** [s CONTAINS q] *)
Fixpoint contains (s q : string) : bool :=
  String.prefix q s
  || match s with
     | EmptyString => false
     | String _ s' => contains s' q
     end.

End Cypher.

(** A [STATEMENT] relationship with its two end nodes, each end given by the
    [value] of the [Identifier] node it is attached to. *)
Record Statement : Type := mkStatement {
  st_subject : string;
  st_object : string;
  st_id : string;
  st_predicate : string;
  st_object_value : string;
  st_source_id : option string;
  st_timestamp : string;
  st_created_at : string
}.

(** The graph: one entry of [identifiers] per [Identifier] node. *)
Record Graph : Type := mkGraph {
  identifiers : list string;
  statements : list Statement
}.

Definition empty_graph : Graph := mkGraph [] [].

(** A record of a result: field names with their values, in order. *)
Definition record : Type := list (string * json).

(** [record.get(key)]; [None] is [undefined]. *)
Fixpoint get (r : record) (key : string) : option json :=
  match r with
  | [] => None
  | (k, v) :: r' => if String.eqb k key then Some v else get r' key
  end.

(** The queries of the source, one constructor per Cypher text, with the
    parameters it is sent with. *)
Inductive Query : Type :=
| CountBySubject (identifier : string)
| PageBySubject (identifier : string) (offset limit : Z)
| CountByPredicate (predicate : string)
| PageByPredicate (predicate : string) (offset limit : Z)
| SearchStatements (query : string)
| StatementById (id : string)
| CountAll
| PageAll (offset limit : Z)
| CreateStatement (id subject predicate object_value : string)
    (source_id : option string) (timestamp created_at : string)
| DeleteStatement (id : string)
| IngestStatement (id subject predicate object_value sourceName now : string)
| RestSearch (q : string)
| ListSubjects
| RestSubjects
| RestStatements
| RestDataSubjects.

Module Listing.

(** [RETURN DISTINCT i.value]: the first occurrence of each value stays. *)
Fixpoint distinct (l : list string) : list string :=
  match l with
  | [] => []
  | x :: r => x :: filter (fun y => negb (String.eqb x y)) (distinct r)
  end.

(** [ORDER BY subject]: ascending, code unit by code unit. *)
Fixpoint insert_asc (s : string) (l : list string) : list string :=
  match l with
  | [] => [s]
  | x :: r => if (s <=? x)%string then s :: l else x :: insert_asc s r
  end.

Fixpoint order_asc (l : list string) : list string :=
  match l with
  | [] => []
  | s :: r => insert_asc s (order_asc r)
  end.

Definition subject_row (s : string) : record := [("subject", JStr s)].

(** [MATCH (i:Identifier)-[s:STATEMENT]->() RETURN DISTINCT i.value as subject
    ORDER BY subject] *)
Definition subjects_sorted (g : Graph) : list record :=
  map subject_row (order_asc (distinct (map st_subject (statements g)))).

(** The same without [ORDER BY], as the data route sends it. *)
Definition subjects_unsorted (g : Graph) : list record :=
  map subject_row (distinct (map st_subject (statements g))).

End Listing.

Module Backend.

Definition nullable (o : option string) : json :=
  match o with Some s => JStr s | None => JNull end.

(** The [RETURN] clause shared by the read queries of the resolvers. *)
Definition row (e : Statement) : record :=
  [ ("id", JStr (st_id e));
    ("subject", JStr (st_subject e));
    ("predicate", JStr (st_predicate e));
    ("object_value", JStr (st_object_value e));
    ("source_id", nullable (st_source_id e));
    ("timestamp", JStr (st_timestamp e));
    ("created_at", JStr (st_created_at e)) ].

(** The [RETURN] clause of the search route. *)
Definition rest_row (e : Statement) : record :=
  [ ("id", JStr (st_id e));
    ("subject_identifier", JStr (st_subject e));
    ("predicate", JStr (st_predicate e));
    ("object_value", JStr (st_object_value e));
    ("source_id", nullable (st_source_id e));
    ("statement_timestamp", JStr (st_timestamp e));
    ("created_at", JStr (st_created_at e)) ].

(** [ORDER BY s.created_at DESC]: strings compare code unit by code unit.
    The query text gives no order to statements with equal [created_at];
    this is the arrangement that leaves them in the order of the store, one
    of those the backend may answer with. What depends on the order among
    equal keys is stated with [tie_breaking] below. *)
Fixpoint insert_desc (e : Statement) (l : list Statement) : list Statement :=
  match l with
  | [] => [e]
  | x :: r =>
      if (st_created_at x <=? st_created_at e)%string then e :: l
      else x :: insert_desc e r
  end.

Fixpoint order_desc (l : list Statement) : list Statement :=
  match l with
  | [] => []
  | e :: r => insert_desc e (order_desc r)
  end.

(** [SKIP $offset LIMIT $limit]: the backend refuses a negative bound. *)
Definition skip_limit {A} (offset limit : Z) (rows : list A)
  : string + list A :=
  if (offset <? 0)%Z || (limit <? 0)%Z
  then inl "Invalid input: must be a non-negative integer"
  else inr (firstn (Z.to_nat limit) (skipn (Z.to_nat offset) rows)).

(** [WHERE toLower(s.object_value) CONTAINS toLower($query)
       OR toLower(i.value) CONTAINS toLower($query)] *)
Definition search_match (query : string) (e : Statement) : bool :=
  Cypher.contains (Cypher.toLower (st_object_value e)) (Cypher.toLower query)
  || Cypher.contains (Cypher.toLower (st_subject e)) (Cypher.toLower query).

Definition has_subject (identifier : string) (e : Statement) : bool :=
  String.eqb (st_subject e) identifier.

Definition has_predicate (predicate : string) (e : Statement) : bool :=
  String.eqb (st_predicate e) predicate.

Definition has_id (id : string) (e : Statement) : bool :=
  String.eqb (st_id e) id.

Definition count_row (name : string) (n : nat) : list record :=
  [[(name, JNum (Z.of_nat n))]].

(** [MERGE (n:Identifier {value: v})]: binds every node that has the value
    and creates one when there is none; the number is that of bound nodes. *)
Definition merge (v : string) (nodes : list string) : list string * nat :=
  let k := length (filter (String.eqb v) nodes) in
  if (k =? 0)%nat then ((nodes ++ [v])%list, 1%nat) else (nodes, k).

(** [MERGE (subj ...) MERGE (obj ...) CREATE (subj)-[s:STATEMENT {...}]->(obj)]:
    one relationship per pair of bound nodes. *)
Definition merge_create (e : Statement) (g : Graph) : Graph * nat :=
  let (nodes1, k) := merge (st_subject e) (identifiers g) in
  let (nodes2, m) := merge (st_object e) nodes1 in
  (mkGraph nodes2 (statements g ++ repeat e (k * m))%list, (k * m)%nat).

(** What the backing store answers to a query, and the graph it leaves. *)
Definition execute (q : Query) (g : Graph) : (string + list record) * Graph :=
  match q with
  | CountBySubject identifier =>
      (inr (count_row "total"
              (length (filter (has_subject identifier) (statements g)))), g)
  | PageBySubject identifier offset limit =>
      (skip_limit offset limit
         (map row (order_desc (filter (has_subject identifier) (statements g)))),
       g)
  | CountByPredicate predicate =>
      (inr (count_row "total"
              (length (filter (has_predicate predicate) (statements g)))), g)
  | PageByPredicate predicate offset limit =>
      (skip_limit offset limit
         (map row (order_desc (filter (has_predicate predicate) (statements g)))),
       g)
  | SearchStatements query =>
      (inr (firstn 100 (map row (filter (search_match query) (statements g)))),
       g)
  | StatementById id =>
      (inr (map row (filter (has_id id) (statements g))), g)
  | CountAll =>
      (inr (count_row "total" (length (statements g))), g)
  | PageAll offset limit =>
      (skip_limit offset limit (map row (order_desc (statements g))), g)
  | CreateStatement id subject predicate object_value source_id
                    timestamp created_at =>
      let e := mkStatement subject object_value id predicate object_value
                           source_id timestamp created_at in
      let (g', n) := merge_create e g in
      (inr (repeat [("id", JStr id)] n), g')
  | DeleteStatement id =>
      (inr (count_row "deleted"
              (length (filter (has_id id) (statements g)))),
       mkGraph (identifiers g)
               (filter (fun e => negb (has_id id e)) (statements g)))
  | IngestStatement id subject predicate object_value sourceName now =>
      let e := mkStatement subject object_value id predicate object_value
                           (Some sourceName) now now in
      (inr [], fst (merge_create e g))
  | RestSearch q =>
      (inr (firstn 100 (map rest_row (filter (search_match q) (statements g)))),
       g)
  | ListSubjects => (inr (Listing.subjects_sorted g), g)
  | RestSubjects => (inr (Listing.subjects_sorted g), g)
  | RestStatements => (inr (map rest_row (statements g)), g)
  | RestDataSubjects => (inr (Listing.subjects_unsorted g), g)
  end.

End Backend.

(* ================================================================== *)
(** ** The world a resolver runs in *)

(** The graph behind the session, the two ambient sources a resolver reads
    ([crypto.randomUUID] and [new Date]), and the queries sent so far. *)
Record World : Type := mkWorld {
  graph : Graph;
  uuid_source : nat -> string;
  uuid_drawn : nat;
  clock : nat -> string;
  clock_reads : nat;
  backend_calls : list Query
}.

Inductive Error : Type :=
| BackendError (message : string)
| RequestError (message : string).

Inductive Outcome (A : Type) : Type :=
| Returned (a : A)
| Thrown (e : Error).
Arguments Returned {A} a.
Arguments Thrown {A} e.

(** An asynchronous function: it returns or throws, and leaves a world. *)
Definition M (A : Type) : Type := World -> Outcome A * World.

Definition ret {A} (a : A) : M A := fun w => (Returned a, w).

Definition throw {A} (e : Error) : M A := fun w => (Thrown e, w).

Definition bind {A B} (m : M A) (k : A -> M B) : M B :=
  fun w =>
    match m w with
    | (Returned a, w') => k a w'
    | (Thrown e, w') => (Thrown e, w')
    end.

Notation "x <- m ;; k" := (bind m (fun x => k))
  (at level 61, m at next level, right associativity).

(** [crypto.randomUUID()] *)
Definition randomUUID : M string :=
  fun w =>
    (Returned (uuid_source w (uuid_drawn w)),
     mkWorld (graph w) (uuid_source w) (S (uuid_drawn w))
             (clock w) (clock_reads w) (backend_calls w)).

(** [new Date().toISOString()] *)
Definition now_iso : M string :=
  fun w =>
    (Returned (clock w (clock_reads w)),
     mkWorld (graph w) (uuid_source w) (uuid_drawn w)
             (clock w) (S (clock_reads w)) (backend_calls w)).

(** [session.run(cypher, params)] of [getSession]: [runQuery] throws on a
    backend fault; [session.close()] does nothing. *)
Definition session_run (q : Query) : M (list record) :=
  fun w =>
    let (answer, g') := Backend.execute q (graph w) in
    let w' := mkWorld g' (uuid_source w) (uuid_drawn w)
                      (clock w) (clock_reads w)
                      (backend_calls w ++ [q])%list in
    match answer with
    | inr rows => (Returned rows, w')
    | inl message => (Thrown (BackendError ("Neo4j error: " ++ message)), w')
    end.

(* ================================================================== *)
(** ** The resolvers *)

Record StatementView : Type := mkView {
  v_id : option json;
  v_subject_identifier : option json;
  v_predicate : option json;
  v_object_value : option json;
  v_source_id : option json;
  v_statement_timestamp : option json;
  v_created_at : option json
}.

Record StatementPage : Type := mkPage {
  p_statements : list StatementView;
  p_totalCount : Z;
  p_hasMore : bool
}.

Record StatementInput : Type := mkInput {
  subject_identifier : string;
  predicate : string;
  object_value : json;
  source_id : option string;
  statement_timestamp : option string
}.

Record DeleteResult : Type := mkDeleteResult {
  d_success : bool;
  d_message : string;
  d_id : string
}.

Record IngestResult : Type := mkIngestResult {
  i_success : bool;
  i_message : string;
  entities_created : nat;
  statements_created : nat
}.

(** [toNumber(val) || 0] on the count a query returns. *)
Definition toNumber_or_zero (v : option json) : Z :=
  match v with
  | Some (JNum z) => z
  | _ => 0%Z
  end.

(** [toNumber(val) > 0] *)
Definition toNumber_positive (v : option json) : bool :=
  match v with
  | Some (JNum z) => (0 <? z)%Z
  | _ => false
  end.

(** [records[0]?.get(key)] *)
Definition first_get (rows : list record) (key : string) : option json :=
  match rows with
  | [] => None
  | r :: _ => get r key
  end.

Definition formatStatement (r : record) : StatementView :=
  {| v_id := get r "id";
     v_subject_identifier := get r "subject";
     v_predicate := get r "predicate";
     v_object_value := get r "object_value";
     v_source_id := Json.or_null (get r "source_id");
     v_statement_timestamp := get r "timestamp";
     v_created_at := get r "created_at" |}.

(** [x || null] and [x || now] on an optional string of the input. *)
Definition string_or_null (x : option string) : option string :=
  if Js.truthy_field x then x else None.

Definition string_or (x : option string) (d : string) : string :=
  match x with
  | Some s => if Js.truthy_string s then s else d
  | None => d
  end.

Definition make_page (offset : Z) (rows : list record) (totalCount : Z)
  : StatementPage :=
  let statements := map formatStatement rows in
  {| p_statements := statements;
     p_totalCount := totalCount;
     p_hasMore := (offset + Z.of_nat (length statements) <? totalCount)%Z |}.

Definition statementsBySubject (identifier : string) (limit offset : Z)
  : M StatementPage :=
  countResult <- session_run (CountBySubject identifier) ;;
  let totalCount := toNumber_or_zero (first_get countResult "total") in
  result <- session_run (PageBySubject identifier offset limit) ;;
  ret (make_page offset result totalCount).

Definition statementsByPredicate (predicate : string) (limit offset : Z)
  : M StatementPage :=
  countResult <- session_run (CountByPredicate predicate) ;;
  let totalCount := toNumber_or_zero (first_get countResult "total") in
  result <- session_run (PageByPredicate predicate offset limit) ;;
  ret (make_page offset result totalCount).

Definition searchStatements (query : string) : M (list StatementView) :=
  result <- session_run (SearchStatements query) ;;
  ret (map formatStatement result).

Definition statement (id : string) : M (option StatementView) :=
  result <- session_run (StatementById id) ;;
  ret (match result with
       | r :: _ => Some (formatStatement r)
       | [] => None
       end).

Definition paginatedStatements (limit offset : Z) : M StatementPage :=
  countResult <- session_run CountAll ;;
  let totalCount := toNumber_or_zero (first_get countResult "total") in
  result <- session_run (PageAll offset limit) ;;
  ret (make_page offset result totalCount).

Definition createStatement (input : StatementInput) : M StatementView :=
  id <- randomUUID ;;
  now <- now_iso ;;
  let timestamp := string_or (statement_timestamp input) now in
  _ <- session_run
         (CreateStatement id (subject_identifier input) (predicate input)
            (Json.stringify (object_value input))
            (string_or_null (source_id input)) timestamp now) ;;
  ret {| v_id := Some (JStr id);
         v_subject_identifier := Some (JStr (subject_identifier input));
         v_predicate := Some (JStr (predicate input));
         v_object_value := Some (object_value input);
         v_source_id :=
           Some (Backend.nullable (string_or_null (source_id input)));
         v_statement_timestamp := Some (JStr timestamp);
         v_created_at := Some (JStr now) |}.

Definition deleteStatement (id : string) : M DeleteResult :=
  result <- session_run (DeleteStatement id) ;;
  let deleted := toNumber_positive (first_get result "deleted") in
  ret {| d_success := deleted;
         d_message := if deleted then "Statement deleted"
                      else "Statement not found";
         d_id := id |}.

(** The three names bound by
    [[subject, predicate, object_value] = line.split(",").map(s => s.trim())]. *)
Definition line_fields (line : string)
  : option string * option string * option string :=
  let fields := map Js.trim (Js.split "," line) in
  (nth_error fields 0, nth_error fields 1, nth_error fields 2).

(** [data.split("\n").filter(l => l.trim())] *)
Definition ingest_lines (data : string) : list string :=
  filter (fun l => Js.truthy_string (Js.trim l))
         (Js.split (ascii_of_nat 10) data).

(** The body of [for (const line of lines)], with the two accumulators
    [statementsCreated] and [entities]. *)
Fixpoint ingest_loop (lines : list string) (sourceName now : string)
    (statementsCreated : nat) (entities : list string)
  : M (nat * list string) :=
  match lines with
  | [] => ret (statementsCreated, entities)
  | line :: rest =>
      match line_fields line with
      | (Some subject, Some predicate, Some object_value) =>
          if negb (Js.truthy_string subject)
             || negb (Js.truthy_string predicate)
             || negb (Js.truthy_string object_value)
          then ingest_loop rest sourceName now statementsCreated entities
          else
            id <- randomUUID ;;
            _ <- session_run (IngestStatement id subject predicate
                                object_value sourceName now) ;;
            ingest_loop rest sourceName now (S statementsCreated)
                        (Js.set_add subject entities)
      | _ => ingest_loop rest sourceName now statementsCreated entities
      end
  end.

Definition ingest (data : string) (sourceName : string) : M IngestResult :=
  let lines := ingest_lines data in
  now <- now_iso ;;
  done <- ingest_loop lines sourceName now 0 [] ;;
  ret {| i_success := true;
         i_message := "Ingested " ++ Js.string_of_nat (fst done)
                        ++ " statements";
         entities_created := length (snd done);
         statements_created := fst done |}.

(** The object the search route builds from a record. *)
Definition rest_view (r : record) : StatementView :=
  {| v_id := get r "id";
     v_subject_identifier := get r "subject_identifier";
     v_predicate := get r "predicate";
     v_object_value := get r "object_value";
     v_source_id := get r "source_id";
     v_statement_timestamp := get r "statement_timestamp";
     v_created_at := get r "created_at" |}.

(** The route [GET /api/search] of the server; [q] is [query.q]. *)
Definition api_search (q : option string) : M (list StatementView * nat) :=
  match q with
  | Some (String c s) =>
      result <- session_run (RestSearch (String c s)) ;;
      let statements := map rest_view result in
      ret (statements, length statements)
  | _ => throw (RequestError "Query parameter 'q' is required")
  end.

(* ================================================================== *)
(** ** Worlds to run the resolvers in *)

Module Sample.

Definition uuids (n : nat) : string := "uuid-" ++ Js.string_of_nat n.

Definition times (n : nat) : string :=
  "2026-01-01T00:00:0" ++ Js.string_of_nat n ++ ".000Z".

(** An empty store, nothing drawn, nothing sent. *)
Definition fresh : World := mkWorld empty_graph uuids 0 times 0 [].

Definition alice_knows_bob : StatementInput :=
  mkInput "alice" "knows" (JStr "bob") None None.

(** The world a resolver leaves, whatever it returned. *)
Definition after {A} (m : M A) (w : World) : World := snd (m w).

Definition newline : string := String (ascii_of_nat 10) EmptyString.

(** Three lines, the middle one without a comma. *)
Definition three_lines : string :=
  "a,likes,b" ++ newline ++ "badline" ++ newline ++ "c, knows , d".

(** The store after the three lines came in from the source [feed]. *)
Definition fed : World := after (ingest three_lines "feed") fresh.

(** A store with three statements of one subject and one of another. *)
Definition busy : World :=
  after (ingest ("a,p,x" ++ newline ++ "b,p,y" ++ newline ++ "a,q,z"
                   ++ newline ++ "a,r,x") "feed") fresh.

End Sample.

(* ================================================================== *)
(** ** Notions the properties are stated with *)

(** The number of [Identifier] nodes of a graph that carry a value. *)
Definition identifier_nodes (v : string) (g : Graph) : nat :=
  length (filter (String.eqb v) (identifiers g)).

(** No two [Identifier] nodes carry the same value. *)
Definition unique_identifiers (g : Graph) : Prop := NoDup (identifiers g).

(** No statement of the graph has the identifier the next draw gives. *)
Definition next_uuid_unused (w : World) : Prop :=
  forall e, In e (statements (graph w)) ->
            st_id e <> uuid_source w (uuid_drawn w).

(** What a read resolver shows of a stored statement. *)
Definition view (e : Statement) : StatementView :=
  formatStatement (Backend.row e).

(** [q] occurs in [s]. *)
Definition substring (q s : string) : Prop :=
  exists a b, s = a ++ q ++ b.

(** The scenario: create, then read back under the returned [id]. *)
Definition create_then_read (input : StatementInput)
  : M (option StatementView) :=
  created <- createStatement input ;;
  match v_id created with
  | Some (JStr id) => statement id
  | _ => ret None
  end.

(** The two mutations that reference identifiers. *)
Inductive Mutation : Type :=
| Create (input : StatementInput)
| Ingest (data sourceName : string).

Definition perform (op : Mutation) : M unit :=
  match op with
  | Create input => _ <- createStatement input ;; ret tt
  | Ingest data sourceName => _ <- ingest data sourceName ;; ret tt
  end.

Fixpoint perform_all (ops : list Mutation) : M unit :=
  match ops with
  | [] => ret tt
  | op :: rest => _ <- perform op ;; perform_all rest
  end.

(** A line that has three non-empty fields after trimming, with them. *)
Definition three_fields (line : string) : option (string * string * string) :=
  match map Js.trim (Js.split "," line) with
  | s :: p :: o :: _ =>
      if Js.truthy_string s && Js.truthy_string p && Js.truthy_string o
      then Some (s, p, o) else None
  | _ => None
  end.

Fixpoint accepted (lines : list string) : list (string * string * string) :=
  match lines with
  | [] => []
  | line :: rest =>
      match three_fields line with
      | Some t => t :: accepted rest
      | None => accepted rest
      end
  end.

Definition subject_of (t : string * string * string) : string := fst (fst t).
Definition predicate_of (t : string * string * string) : string := snd (fst t).
Definition object_of (t : string * string * string) : string := snd t.

(** The statement an accepted line stands for, under a given [id]. *)
Definition ingested_statement (sourceName now id : string)
    (t : string * string * string) : Statement :=
  mkStatement (subject_of t) (object_of t) id (predicate_of t) (object_of t)
              (Some sourceName) now now.

(** The statements of accepted lines, with the successive draws as [id]s. *)
Fixpoint ingested (sourceName now : string) (uuid : nat -> string) (k : nat)
    (ts : list (string * string * string)) : list Statement :=
  match ts with
  | [] => []
  | t :: rest =>
      ingested_statement sourceName now (uuid k) t
        :: ingested sourceName now uuid (S k) rest
  end.

(** The values a mutation hands to [MERGE]. *)
Definition merged_values (op : Mutation) : list string :=
  match op with
  | Create input =>
      [subject_identifier input; Json.stringify (object_value input)]
  | Ingest data _ =>
      flat_map (fun t => [subject_of t; object_of t])
               (accepted (ingest_lines data))
  end.

(** Descending order of [created_at]. *)
Definition newer_first (a b : Statement) : Prop :=
  (st_created_at b <=? st_created_at a)%string = true.



(** The relationship [createStatement] asks the backend to create. *)
Definition stored_statement (input : StatementInput) (id now : string)
  : Statement :=
  mkStatement (subject_identifier input)
              (Json.stringify (object_value input))
              id (predicate input)
              (Json.stringify (object_value input))
              (string_or_null (source_id input))
              (string_or (statement_timestamp input) now) now.

(** The world [createStatement] leaves when identifiers are unique. *)
Definition world_after_create (input : StatementInput) (w : World) : World :=
  let id := uuid_source w (uuid_drawn w) in
  let now := clock w (clock_reads w) in
  let e := stored_statement input id now in
  mkWorld
    (mkGraph (Js.set_add (st_object e)
                (Js.set_add (st_subject e) (identifiers (graph w))))
             (statements (graph w) ++ [e])%list)
    (uuid_source w) (S (uuid_drawn w)) (clock w) (S (clock_reads w))
    (backend_calls w ++
       [CreateStatement id (subject_identifier input) (predicate input)
          (Json.stringify (object_value input))
          (string_or_null (source_id input))
          (string_or (statement_timestamp input) now) now])%list.

(** The nodes after the [MERGE]s of accepted lines, on unique identifiers. *)
Definition merged_nodes (ts : list (string * string * string))
    (nodes : list string) : list string :=
  fold_left (fun ns t => Js.set_add (object_of t) (Js.set_add (subject_of t) ns))
            ts nodes.

(** The [entities] set after accepted lines. *)
Definition entities_after (ts : list (string * string * string))
    (entities : list string) : list string :=
  fold_left (fun es t => Js.set_add (subject_of t) es) ts entities.

(** The query sent for a statement of an accepted line. *)
Definition ingest_query (e : Statement) : Query :=
  IngestStatement (st_id e) (st_subject e) (st_predicate e)
                  (st_object_value e)
                  (match st_source_id e with
                   | Some s => s
                   | None => EmptyString
                   end)
                  (st_created_at e).

(** The world the loop of [ingest] leaves when identifiers are unique. *)
Definition world_after_lines (sourceName now : string)
    (ts : list (string * string * string)) (w : World) : World :=
  let es := ingested sourceName now (uuid_source w) (uuid_drawn w) ts in
  mkWorld
    (mkGraph (merged_nodes ts (identifiers (graph w)))
             (statements (graph w) ++ es)%list)
    (uuid_source w) (uuid_drawn w + length ts) (clock w) (clock_reads w)
    (backend_calls w ++ map ingest_query es)%list.

(** A statement and an input with the [source_id] replaced. *)
Definition without_source (e : Statement) : Statement :=
  mkStatement (st_subject e) (st_object e) (st_id e) (st_predicate e)
              (st_object_value e) None (st_timestamp e) (st_created_at e).

Definition with_source (input : StatementInput) (s : option string)
  : StatementInput :=
  mkInput (subject_identifier input) (predicate input) (object_value input)
          s (statement_timestamp input).

From Stdlib Require DecimalNat OrderedTypeEx.

(* ================================================================== *)
(** ** The subject listings *)

(** The resolver [subjects]. *)
Definition subjects : M (list (option json)) :=
  result <- session_run ListSubjects ;;
  ret (map (fun r => get r "subject") result).

(** The route [GET /api/subjects]: the subjects and their number. *)
Definition api_subjects : M (list (option json) * nat) :=
  result <- session_run RestSubjects ;;
  let subjects := map (fun r => get r "subject") result in
  ret (subjects, length subjects).

(** The route [GET /api/data]: all statements, then all subjects. *)
Definition api_data : M (list StatementView * list (option json)) :=
  stmtResult <- session_run RestStatements ;;
  let statements := map rest_view stmtResult in
  subjResult <- session_run RestDataSubjects ;;
  let subjects := map (fun r => get r "subject") subjResult in
  ret (statements, subjects).

(** Ascending order without equal neighbours. *)
Definition strictly_before (a b : string) : Prop :=
  (a <=? b)%string = true /\ a <> b.

(** [v_source_id || null] applied to an object of the search route. *)
Definition with_null_source (v : StatementView) : StatementView :=
  mkView (v_id v) (v_subject_identifier v) (v_predicate v) (v_object_value v)
         (Json.or_null (v_source_id v)) (v_statement_timestamp v)
         (v_created_at v).

(* ================================================================== *)
(** ** Sequences of mutations, deletions included *)

Inductive Action : Type :=
| Mutate (op : Mutation)
| Delete (id : string).

Definition act (a : Action) : M unit :=
  match a with
  | Mutate op => perform op
  | Delete id => _ <- deleteStatement id ;; ret tt
  end.

Fixpoint act_all (actions : list Action) : M unit :=
  match actions with
  | [] => ret tt
  | a :: rest => _ <- act a ;; act_all rest
  end.

(** The draws to come are pairwise different and none is an [id] in use. *)
Definition fresh_uuids (w : World) : Prop :=
  (forall i j, uuid_drawn w <= i -> uuid_drawn w <= j ->
               uuid_source w i = uuid_source w j -> i = j)
  /\ (forall e k, In e (statements (graph w)) -> uuid_drawn w <= k ->
                  st_id e <> uuid_source w k).

(** No two statements share an [id]. *)
Definition unique_ids (g : Graph) : Prop := NoDup (map st_id (statements g)).

(** Both ends of every statement are nodes of the graph, and the object
    node carries the [object_value] of the statement. *)
Definition attached (g : Graph) : Prop :=
  forall e, In e (statements g) ->
    In (st_subject e) (identifiers g)
    /\ In (st_object e) (identifiers g)
    /\ st_object e = st_object_value e.

(** A character occurs in a string. *)
Fixpoint has_char (c : ascii) (s : string) : bool :=
  match s with
  | EmptyString => false
  | String d s' => Ascii.eqb d c || has_char c s'
  end.

(** A field as [ingest] stores it: not empty, no white space around it,
    neither a comma nor a line feed in it. *)
Definition clean_field (s : string) : Prop :=
  s <> EmptyString
  /\ Js.trim s = s
  /\ has_char "," s = false
  /\ has_char (ascii_of_nat 10) s = false.

(* ================================================================== *)
(** ** The HTTP client of [neo4j.ts] *)

Module Neo4j.

(** The prototype of an object: [Object.prototype], none, or a value that an
    assignment to [__proto__] put there. *)
Inductive prototype : Type :=
| ObjectPrototype
| NullPrototype
| ValuePrototype (v : json).

(** A JavaScript object used as a record: its own keys with their values,
    a value may be [undefined] ([None]), and its prototype. The list keeps
    the keys as they were first written; nothing here enumerates them. *)
Record js_object : Type := mkObject {
  own : list (string * option json);
  proto : prototype
}.

(** [{}] *)
Definition empty_object : js_object := mkObject [] ObjectPrototype.

(** The names [Object.prototype] answers to. *)
Definition object_prototype_names : list string :=
  [ "constructor"; "__defineGetter__"; "__defineSetter__"; "hasOwnProperty";
    "__lookupGetter__"; "__lookupSetter__"; "isPrototypeOf";
    "propertyIsEnumerable"; "toString"; "valueOf"; "__proto__";
    "toLocaleString" ].

(** What [o[key]] is: a value of the record ([undefined] included), the
    member of [Object.prototype] of that name, or [v[key]] for the value
    [v] that became the prototype. *)
Inductive member : Type :=
| Value (v : option json)
| OfObjectPrototype (name : string)
| OfValue (v : json) (key : string).

Fixpoint own_get (o : list (string * option json)) (key : string)
  : option (option json) :=
  match o with
  | [] => None
  | (k, v) :: o' => if String.eqb k key then Some v else own_get o' key
  end.

(** [o[key]]: an own key first, then the prototype. *)
Definition obj_get (o : js_object) (key : string) : member :=
  match own_get (own o) key with
  | Some v => Value v
  | None =>
      match proto o with
      | ObjectPrototype =>
          if existsb (String.eqb key) object_prototype_names
          then OfObjectPrototype key else Value None
      | NullPrototype => Value None
      | ValuePrototype v => OfValue v key
      end
  end.

(** An own key is written: an existing key keeps its place. *)
Fixpoint own_set (key : string) (v : option json)
    (o : list (string * option json)) : list (string * option json) :=
  match o with
  | [] => [(key, v)]
  | (k, x) :: o' =>
      if String.eqb k key then (k, v) :: o' else (k, x) :: own_set key v o'
  end.

(** The setter of [__proto__] on [Object.prototype]: an object, an array
    or null becomes the prototype, any other value is ignored. *)
Definition set_prototype (v : option json) (o : js_object) : js_object :=
  match v with
  | Some JNull => mkObject (own o) NullPrototype
  | Some (JObj members) => mkObject (own o) (ValuePrototype (JObj members))
  | Some (JArr items) => mkObject (own o) (ValuePrototype (JArr items))
  | _ => o
  end.

(** The setter is reached unless [__proto__] is an own key of the object
    or of the parsed object that is its prototype, or there is no
    prototype. *)
Definition reaches_setter (o : js_object) : bool :=
  match own_get (own o) "__proto__" with
  | Some _ => false
  | None =>
      match proto o with
      | ObjectPrototype => true
      | NullPrototype => false
      | ValuePrototype (JObj members) =>
          negb (existsb (fun kv => String.eqb (fst kv) "__proto__") members)
      | ValuePrototype _ => true
      end
  end.

(** [o[key] = v] *)
Definition obj_set (key : string) (v : option json) (o : js_object)
  : js_object :=
  if String.eqb key "__proto__" && reaches_setter o
  then set_prototype v o
  else mkObject (own_set key v (own o)) (proto o).

(** [fields.forEach((field, i) => { record[field] = row[i]; })] from the
    index [i] on. *)
Fixpoint fill (fields : list string) (i : nat) (row : list json)
    (o : js_object) : js_object :=
  match fields with
  | [] => o
  | field :: rest => fill rest (S i) row (obj_set field (nth_error row i) o)
  end.

(** The record made of one row of values. *)
Definition make_record (fields : list string) (row : list json)
  : js_object :=
  fill fields 0 row empty_object.

(** The part [data] of a response body; a part may be missing. *)
Record ResultData : Type := mkResultData {
  data_fields : option (list string);
  data_values : option (list (list json))
}.

(** What [fetch] resolves to, with the parsed body: the messages of
    [errors] and [data]. *)
Record Response : Type := mkResponse {
  ok : bool;
  status : nat;
  text : string;
  errors : option (list string);
  data : option ResultData
}.

Definition or_nil {A} (x : option (list A)) : list A :=
  match x with Some l => l | None => [] end.

(** [runQuery] from the response on: the message of the [Error] thrown, or
    the array of records. *)
Definition read_response (r : Response) : string + list js_object :=
  if negb (ok r) then
    inl ("Neo4j query failed: " ++ Js.string_of_nat (status r)
           ++ " - " ++ text r)
  else
    match errors r with
    | Some (message :: _) => inl ("Neo4j error: " ++ message)
    | _ =>
        let fields :=
          or_nil (match data r with
                  | Some d => data_fields d
                  | None => None
                  end) in
        let values :=
          or_nil (match data r with
                  | Some d => data_values d
                  | None => None
                  end) in
        inr (map (make_record fields) values)
    end.

(** The environment variables the client reads. *)
Record Env : Type := mkEnv {
  env_NEO4J_QUERY_URL : option string;
  env_NEO4J_USER : option string;
  env_NEO4J_PASSWORD : option string
}.

Definition NEO4J_QUERY_URL (env : Env) : string :=
  string_or (env_NEO4J_QUERY_URL env)
            "https://ff75d054.databases.neo4j.io/db/neo4j/query/v2".

Definition NEO4J_USER (env : Env) : string :=
  string_or (env_NEO4J_USER env) EmptyString.

Definition NEO4J_PASSWORD (env : Env) : string :=
  string_or (env_NEO4J_PASSWORD env) EmptyString.

Section Headers.

(** [Buffer.from(s).toString("base64")] *)
Variable base64 : string -> string.

Definition getHeaders (env : Env) : list (string * string) :=
  let headers := [("Content-Type", "application/json")] in
  if Js.truthy_string (NEO4J_USER env)
     && Js.truthy_string (NEO4J_PASSWORD env)
  then app headers
         [("Authorization",
           "Basic " ++ base64 (NEO4J_USER env ++ ":" ++ NEO4J_PASSWORD env))]
  else headers.

End Headers.

(** The mode the client prints when the module loads. *)
Definition authMode (env : Env) : string :=
  if Js.truthy_string (NEO4J_USER env)
     && Js.truthy_string (NEO4J_PASSWORD env)
  then "Basic Auth" else "No Auth".

(** The value of a header, if the header is there. *)
Fixpoint header (name : string) (headers : list (string * string))
  : option string :=
  match headers with
  | [] => None
  | (k, v) :: rest => if String.eqb k name then Some v else header name rest
  end.

End Neo4j.

(** A page of the right size: it reports the number of matching statements,
    holds what is left of them after the offset, up to the limit, and says
    that there is more when the limit cut something off. *)
Definition page_of_size (p : StatementPage) (total : nat) (limit offset : Z)
  : Prop :=
  p_totalCount p = Z.of_nat total
  /\ Z.of_nat (length (p_statements p)) =
     Z.min limit (Z.max 0 (Z.of_nat total - offset))
  /\ p_hasMore p = (offset + limit <? Z.of_nat total)%Z.

(** The pages a resolver gives at the offsets 0, limit, 2*limit, ... put
    together are the statements of [matching], newest first, and only the
    last of them has [hasMore] false. *)
Definition pages_partition (resolve : Z -> Z -> M StatementPage)
    (matching : list Statement) (limit : Z) (w : World) : Prop :=
  let last := (length matching - 1) / Z.to_nat limit in
  exists pages : list StatementPage,
    length pages = S last
    /\ (forall i p, nth_error pages i = Some p ->
        forall w0, graph w0 = graph w ->
          fst (resolve limit (Z.of_nat i * limit)%Z w0) = Returned p
          /\ graph (snd (resolve limit (Z.of_nat i * limit)%Z w0)) = graph w)
    /\ concat (map p_statements pages) =
       map view (Backend.order_desc matching)
    /\ (forall i p, nth_error pages i = Some p ->
          p_totalCount p = Z.of_nat (length matching)
          /\ (p_hasMore p = false <-> i = last))
    /\ Permutation (map view matching) (map view (Backend.order_desc matching))
    /\ Sorted newer_first (Backend.order_desc matching).

(** What running a paginated resolver on valid bounds comes to. *)
Definition runs_as_window (resolve : Z -> Z -> M StatementPage)
    (matching : Graph -> list Statement) : Prop :=
  forall (limit offset : Z) (w : World),
    (0 <= limit)%Z -> (0 <= offset)%Z ->
    fst (resolve limit offset w) =
      Returned
        (make_page offset
           (firstn (Z.to_nat limit)
              (skipn (Z.to_nat offset)
                 (map Backend.row (Backend.order_desc (matching (graph w))))))
           (Z.of_nat (length (matching (graph w)))))
    /\ graph (snd (resolve limit offset w)) = graph w.

(** What every sequence of mutations keeps. *)
Definition consistent (w : World) : Prop :=
  unique_identifiers (graph w)
  /\ unique_ids (graph w)
  /\ fresh_uuids w
  /\ attached (graph w).

(** A resolver that only reads: the graph and the two sources stay. *)
Definition untouched (w w' : World) : Prop :=
  graph w' = graph w
  /\ uuid_drawn w' = uuid_drawn w
  /\ clock_reads w' = clock_reads w.

(** A response with one row under two field names. *)
Definition sample_response : Neo4j.Response :=
  Neo4j.mkResponse true 200 EmptyString None
    (Some (Neo4j.mkResultData (Some ["id"; "total"])
                              (Some [[JStr "x"; JNum 3]]))).

(* ================================================================== *)
(** ** Equal [created_at] under [ORDER BY] *)


(** An answer to [ORDER BY s.created_at DESC] on given rows: all of them,
    none before a newer one. The query text says nothing on rows with equal
    [created_at]. *)
Definition newest_first (rows answer : list Statement) : Prop :=
  Permutation rows answer /\ Sorted newer_first answer.

(** The order the backend chooses for the rows of a query; it may choose
    differently for two queries. *)
Definition tie_breaking : Type := Query -> list Statement -> list Statement.

(** Every choice is an answer to [ORDER BY s.created_at DESC]. *)
Definition fair (choose : tie_breaking) : Prop :=
  forall q rows, newest_first rows (choose q rows).

(** The choice [Backend.execute] makes. *)
Definition stable : tie_breaking := fun _ => Backend.order_desc.

Module Ties.

(** The rows a page query orders. *)
Definition page_rows (q : Query) (g : Graph) : list Statement :=
  match q with
  | PageBySubject identifier _ _ =>
      filter (Backend.has_subject identifier) (statements g)
  | PageByPredicate predicate _ _ =>
      filter (Backend.has_predicate predicate) (statements g)
  | PageAll _ _ => statements g
  | _ => []
  end.

(** [Backend.execute] with the order of the page queries left to the
    backend. *)
Definition execute (choose : tie_breaking) (q : Query) (g : Graph)
  : (string + list record) * Graph :=
  match q with
  | PageBySubject _ offset limit
  | PageByPredicate _ offset limit
  | PageAll offset limit =>
      (Backend.skip_limit offset limit
         (map Backend.row (choose q (page_rows q g))), g)
  | _ => Backend.execute q g
  end.

End Ties.

(** [session.run] against a backend that orders as [choose] says. *)
Definition session_run_under (choose : tie_breaking) (q : Query)
  : M (list record) :=
  fun w =>
    let (answer, g') := Ties.execute choose q (graph w) in
    let w' := mkWorld g' (uuid_source w) (uuid_drawn w)
                      (clock w) (clock_reads w)
                      (backend_calls w ++ [q])%list in
    match answer with
    | inr rows => (Returned rows, w')
    | inl message => (Thrown (BackendError ("Neo4j error: " ++ message)), w')
    end.

(** The three paginated resolvers against such a backend. *)
Definition statementsBySubject_under (choose : tie_breaking)
    (identifier : string) (limit offset : Z) : M StatementPage :=
  countResult <- session_run_under choose (CountBySubject identifier) ;;
  let totalCount := toNumber_or_zero (first_get countResult "total") in
  result <- session_run_under choose
              (PageBySubject identifier offset limit) ;;
  ret (make_page offset result totalCount).

Definition statementsByPredicate_under (choose : tie_breaking)
    (predicate : string) (limit offset : Z) : M StatementPage :=
  countResult <- session_run_under choose (CountByPredicate predicate) ;;
  let totalCount := toNumber_or_zero (first_get countResult "total") in
  result <- session_run_under choose
              (PageByPredicate predicate offset limit) ;;
  ret (make_page offset result totalCount).

Definition paginatedStatements_under (choose : tie_breaking)
    (limit offset : Z) : M StatementPage :=
  countResult <- session_run_under choose CountAll ;;
  let totalCount := toNumber_or_zero (first_get countResult "total") in
  result <- session_run_under choose (PageAll offset limit) ;;
  ret (make_page offset result totalCount).

(** A backend that orders the rows of the first page of a subject as the
    store has them and the rows of every other query the other way
    round. *)
Definition turning : tie_breaking :=
  fun q rows =>
    match q with
    | PageBySubject _ 0%Z _ => Backend.order_desc rows
    | _ => Backend.order_desc (rev rows)
    end.

(** The [id]s on a page. *)
Definition page_ids (p : Outcome StatementPage) : list (option json) :=
  match p with
  | Returned page => map v_id (p_statements page)
  | Thrown _ => []
  end.

(** A store of three statements created one after the other, each with a
    [created_at] of its own. *)
Definition dated : World :=
  Sample.after
    (_ <- createStatement Sample.alice_knows_bob ;;
     _ <- createStatement (mkInput "alice" "likes" (JStr "carol") None None) ;;
     createStatement (mkInput "dave" "knows" (JStr "alice") None None))
    Sample.fresh.

(* ================================================================== *)
(** ** Sets of strings and [MERGE] *)

Lemma set_add_In (x v : string) (l : list string) :
  In x (Js.set_add v l) <-> x = v \/ In x l.
Proof.
  unfold Js.set_add.
  destruct (existsb (String.eqb v) l) eqn:E.
  - apply existsb_exists in E as (y & Hy & Hv).
    apply String.eqb_eq in Hv. subst y.
    split; [now right | intros [->|H]; assumption].
  - rewrite in_app_iff. simpl. intuition.
Qed.

Lemma set_add_NoDup (v : string) (l : list string) :
  NoDup l -> NoDup (Js.set_add v l).
Proof.
  intros Hl. unfold Js.set_add.
  destruct (existsb (String.eqb v) l) eqn:E; [assumption|].
  apply NoDup_app; [assumption | repeat constructor; simpl; tauto |].
  intros x Hx [Hv|[]]. subst x.
  assert (existsb (String.eqb v) l = true); [|congruence].
  apply existsb_exists. exists v. split; [assumption | apply String.eqb_refl].
Qed.

Lemma filter_eqb_NoDup (v : string) (l : list string) :
  NoDup l ->
  length (filter (String.eqb v) l) = if existsb (String.eqb v) l then 1 else 0.
Proof.
  intros H. induction H as [|x l Hx Hl IH]; simpl; [reflexivity|].
  destruct (String.eqb v x) eqn:E; simpl.
  - apply String.eqb_eq in E. subst x.
    destruct (existsb (String.eqb v) l) eqn:E'.
    + apply existsb_exists in E' as (y & Hy & Hv).
      apply String.eqb_eq in Hv. subst y. contradiction.
    + rewrite IH. reflexivity.
  - exact IH.
Qed.

Lemma merge_unique (v : string) (nodes : list string) :
  NoDup nodes -> Backend.merge v nodes = (Js.set_add v nodes, 1).
Proof.
  intros H. unfold Backend.merge, Js.set_add.
  rewrite (filter_eqb_NoDup v nodes H).
  destruct (existsb (String.eqb v) nodes); reflexivity.
Qed.

Lemma merge_create_unique (e : Statement) (g : Graph) :
  unique_identifiers g ->
  Backend.merge_create e g =
    (mkGraph (Js.set_add (st_object e) (Js.set_add (st_subject e) (identifiers g)))
             (statements g ++ [e])%list, 1).
Proof.
  intros H. unfold Backend.merge_create.
  rewrite (merge_unique _ _ H).
  rewrite (merge_unique _ _ (set_add_NoDup _ _ H)).
  reflexivity.
Qed.

Lemma identifier_nodes_one (v : string) (g : Graph) :
  unique_identifiers g -> In v (identifiers g) -> identifier_nodes v g = 1.
Proof.
  intros H Hin. unfold identifier_nodes.
  rewrite (filter_eqb_NoDup v _ H).
  replace (existsb (String.eqb v) (identifiers g)) with true; [reflexivity|].
  symmetry. apply existsb_exists. exists v.
  split; [assumption | apply String.eqb_refl].
Qed.

(* ================================================================== *)
(** ** [createStatement] and [statement] *)

Lemma createStatement_run (input : StatementInput) (w : World) :
  unique_identifiers (graph w) ->
  createStatement input w =
    (Returned
       {| v_id := Some (JStr (uuid_source w (uuid_drawn w)));
          v_subject_identifier := Some (JStr (subject_identifier input));
          v_predicate := Some (JStr (predicate input));
          v_object_value := Some (object_value input);
          v_source_id :=
            Some (Backend.nullable (string_or_null (source_id input)));
          v_statement_timestamp :=
            Some (JStr (string_or (statement_timestamp input)
                                  (clock w (clock_reads w))));
          v_created_at := Some (JStr (clock w (clock_reads w))) |},
     world_after_create input w).
Proof.
  intros H.
  unfold createStatement, bind, randomUUID, now_iso, session_run, ret.
  cbn [graph uuid_source uuid_drawn clock clock_reads backend_calls
       Backend.execute].
  match goal with
  | |- context [Backend.merge_create ?e ?g] =>
      rewrite (merge_create_unique e g H)
  end.
  reflexivity.
Qed.

Lemma world_after_create_unique (input : StatementInput) (w : World) :
  unique_identifiers (graph w) ->
  unique_identifiers (graph (world_after_create input w)).
Proof.
  intros H. unfold unique_identifiers, world_after_create. simpl.
  now apply set_add_NoDup, set_add_NoDup.
Qed.

Lemma filter_has_id_unused (id : string) (l : list Statement) :
  (forall e, In e l -> st_id e <> id) ->
  filter (Backend.has_id id) l = [].
Proof.
  induction l as [|x l IH]; intros H; simpl; [reflexivity|].
  unfold Backend.has_id at 1.
  destruct (String.eqb_spec (st_id x) id) as [E|E].
  - exfalso. apply (H x); [now left | exact E].
  - apply IH. intros e He. apply H. now right.
Qed.

Lemma statement_run (id : string) (w : World) :
  statement id w =
    (Returned (match filter (Backend.has_id id) (statements (graph w)) with
               | e :: _ => Some (view e)
               | [] => None
               end),
     mkWorld (graph w) (uuid_source w) (uuid_drawn w) (clock w)
             (clock_reads w) (backend_calls w ++ [StatementById id])%list).
Proof.
  unfold statement, bind, session_run, ret. simpl.
  destruct (filter (Backend.has_id id) (statements (graph w)));
    reflexivity.
Qed.

(** Claim C2. On a store whose identifiers are unique, [createStatement]
    appends one relationship whose [object_value], and whose object node,
    are [JSON.stringify] of the input value; exactly one [Identifier] node
    carries that string afterwards; the object returned to the caller has
    the input value itself. *)
Theorem createStatement_stores_serialized_echoes_original
    (input : StatementInput) (w : World) :
  unique_identifiers (graph w) ->
  exists (v : StatementView) (w' : World) (e : Statement),
    createStatement input w = (Returned v, w')
    /\ statements (graph w') = (statements (graph w) ++ [e])%list
    /\ st_object_value e = Json.stringify (object_value input)
    /\ st_object e = Json.stringify (object_value input)
    /\ identifier_nodes (Json.stringify (object_value input)) (graph w') = 1
    /\ v_object_value v = Some (object_value input).
Proof.
  intros H.
  eexists _, _, _. split; [apply (createStatement_run input w H)|].
  repeat split.
  apply identifier_nodes_one.
  - now apply world_after_create_unique.
  - simpl. apply set_add_In. now left.
Qed.

Lemma createStatement_stores_serialized_echoes_original_witness :
  exists (v : StatementView) (w' : World) (e : Statement),
    createStatement Sample.alice_knows_bob Sample.fresh = (Returned v, w')
    /\ statements (graph w') = (statements (graph Sample.fresh) ++ [e])%list
    /\ st_object_value e = Json.stringify (object_value Sample.alice_knows_bob)
    /\ st_object e = Json.stringify (object_value Sample.alice_knows_bob)
    /\ identifier_nodes (Json.stringify (object_value Sample.alice_knows_bob))
                        (graph w') = 1
    /\ v_object_value v = Some (object_value Sample.alice_knows_bob).
Proof.
  apply (createStatement_stores_serialized_echoes_original
           Sample.alice_knows_bob Sample.fresh).
  constructor.
Defined.

Lemma create_then_read_run (input : StatementInput) (w : World) :
  unique_identifiers (graph w) ->
  next_uuid_unused w ->
  fst (create_then_read input w) =
    Returned
      (Some (view (stored_statement input (uuid_source w (uuid_drawn w))
                                    (clock w (clock_reads w))))).
Proof.
  intros H Hid.
  unfold create_then_read, bind.
  rewrite (createStatement_run input w H).
  cbn [v_id]. rewrite statement_run.
  cbn [fst world_after_create graph statements].
  rewrite filter_app, (filter_has_id_unused _ _ Hid).
  simpl. unfold Backend.has_id. simpl. rewrite String.eqb_refl.
  reflexivity.
Qed.

(** Claim C1, as the code has it. On a store with unique identifiers where
    the drawn [id] is not in use, reading back the statement created from
    an input gives its [subject_identifier] and [predicate], and as
    [object_value] the JSON text of the input value: for the input value
    [bob] the five characters of the quoted string. *)
Theorem create_then_read_gives_serialized_object
    (input : StatementInput) (w : World) :
  unique_identifiers (graph w) ->
  next_uuid_unused w ->
  exists v : StatementView,
    fst (create_then_read input w) = Returned (Some v)
    /\ v_id v = Some (JStr (uuid_source w (uuid_drawn w)))
    /\ v_subject_identifier v = Some (JStr (subject_identifier input))
    /\ v_predicate v = Some (JStr (predicate input))
    /\ v_object_value v = Some (JStr (Json.stringify (object_value input))).
Proof.
  intros H Hid. eexists. split; [apply (create_then_read_run input w H Hid)|].
  repeat split.
Qed.

Lemma create_then_read_gives_serialized_object_witness :
  exists v : StatementView,
    fst (create_then_read Sample.alice_knows_bob Sample.fresh)
      = Returned (Some v)
    /\ v_id v = Some (JStr (Sample.uuids 0))
    /\ v_subject_identifier v = Some (JStr "alice")
    /\ v_predicate v = Some (JStr "knows")
    /\ v_object_value v = Some (JStr (Json.quote "bob")).
Proof.
  apply (create_then_read_gives_serialized_object
           Sample.alice_knows_bob Sample.fresh).
  - constructor.
  - intros e [].
Defined.

(** Claim C1 fails as stated: in the empty store the record read back for
    the input [alice knows bob] has an [object_value] of five characters,
    the quoted text, not [bob]. *)
Lemma create_then_read_object_value_counterexample :
  exists v : StatementView,
    fst (create_then_read Sample.alice_knows_bob Sample.fresh)
      = Returned (Some v)
    /\ v_subject_identifier v = Some (JStr "alice")
    /\ v_predicate v = Some (JStr "knows")
    /\ v_object_value v = Some (JStr (Json.quote "bob"))
    /\ String.length (Json.quote "bob") = 5
    /\ v_object_value v <> Some (JStr "bob").
Proof.
  eexists. split; [vm_compute; reflexivity|].
  repeat split. vm_compute. discriminate.
Qed.

(* ================================================================== *)
(** ** The loop of [ingest] *)

Lemma merged_nodes_NoDup (ts : list (string * string * string))
    (nodes : list string) :
  NoDup nodes -> NoDup (merged_nodes ts nodes).
Proof.
  revert nodes. induction ts as [|t ts IH]; intros nodes H; simpl.
  - exact H.
  - apply IH. now apply set_add_NoDup, set_add_NoDup.
Qed.

Lemma merged_nodes_In (x : string) (ts : list (string * string * string))
    (nodes : list string) :
  In x (merged_nodes ts nodes) <->
  In x nodes \/ In x (flat_map (fun t => [subject_of t; object_of t]) ts).
Proof.
  revert nodes. induction ts as [|t ts IH]; intros nodes; simpl.
  - tauto.
  - rewrite IH, !set_add_In. intuition.
Qed.

Lemma world_after_lines_unique (sourceName now : string)
    (ts : list (string * string * string)) (w : World) :
  unique_identifiers (graph w) ->
  unique_identifiers (graph (world_after_lines sourceName now ts w)).
Proof.
  intros H. unfold unique_identifiers. simpl.
  now apply merged_nodes_NoDup.
Qed.

Lemma ingest_step (id subject predicate object_value sourceName now : string)
    (w : World) :
  unique_identifiers (graph w) ->
  session_run (IngestStatement id subject predicate object_value
                               sourceName now) w =
    (Returned [],
     mkWorld
       (mkGraph (Js.set_add object_value
                   (Js.set_add subject (identifiers (graph w))))
                (statements (graph w) ++
                   [ingested_statement sourceName now id
                      (subject, predicate, object_value)])%list)
       (uuid_source w) (uuid_drawn w) (clock w) (clock_reads w)
       (backend_calls w ++
          [IngestStatement id subject predicate object_value
                           sourceName now])%list).
Proof.
  intros H. unfold session_run. cbn [Backend.execute].
  match goal with
  | |- context [Backend.merge_create ?e ?g] =>
      rewrite (merge_create_unique e g H)
  end.
  reflexivity.
Qed.

Lemma ingest_loop_run (sourceName now : string) (lines : list string) :
  forall (n : nat) (entities : list string) (w : World),
    unique_identifiers (graph w) ->
    ingest_loop lines sourceName now n entities w =
      (Returned (n + length (accepted lines),
                 entities_after (accepted lines) entities),
       world_after_lines sourceName now (accepted lines) w).
Proof.
  induction lines as [|line lines IH]; intros n entities w H.
  - unfold world_after_lines. simpl. unfold ret.
    rewrite !Nat.add_0_r, !app_nil_r. destruct w as [[ids sts] us d c r b].
    reflexivity.
  - cbn [ingest_loop accepted]. unfold line_fields, three_fields.
    destruct (map Js.trim (Js.split "," line)) as [|s [|p [|o rest]]];
      cbn [nth_error]; try (apply IH; exact H).
    destruct (Js.truthy_string s), (Js.truthy_string p),
             (Js.truthy_string o); cbn [negb orb andb];
      try (apply IH; exact H).
    unfold bind at 1. unfold randomUUID at 1.
    unfold bind at 1. rewrite ingest_step by exact H.
    rewrite IH by (unfold unique_identifiers; simpl;
                   now apply set_add_NoDup, set_add_NoDup).
    unfold world_after_lines. cbn [length ingested map merged_nodes fold_left
      graph uuid_source uuid_drawn clock clock_reads backend_calls
      identifiers statements entities_after subject_of object_of fst snd].
    rewrite <- !app_assoc, !Nat.add_succ_r. reflexivity.
Qed.

Lemma entities_after_NoDup (ts : list (string * string * string))
    (entities : list string) :
  NoDup entities -> NoDup (entities_after ts entities).
Proof.
  revert entities. induction ts as [|t ts IH]; intros entities H; simpl.
  - exact H.
  - apply IH. now apply set_add_NoDup.
Qed.

Lemma entities_after_In (x : string) (ts : list (string * string * string))
    (entities : list string) :
  In x (entities_after ts entities) <->
  In x entities \/ In x (map subject_of ts).
Proof.
  revert entities. induction ts as [|t ts IH]; intros entities; simpl.
  - tauto.
  - rewrite IH, set_add_In. intuition.
Qed.

Lemma nth_error_ingested (sourceName now : string) (uuid : nat -> string)
    (ts : list (string * string * string)) :
  forall k i,
    nth_error (ingested sourceName now uuid k ts) i =
    option_map (ingested_statement sourceName now (uuid (k + i)))
               (nth_error ts i).
Proof.
  induction ts as [|t ts IH]; intros k i.
  - destruct i; reflexivity.
  - destruct i as [|i]; simpl.
    + now rewrite Nat.add_0_r.
    + rewrite IH. now rewrite Nat.add_succ_r.
Qed.

Lemma length_ingested (sourceName now : string) (uuid : nat -> string)
    (ts : list (string * string * string)) (k : nat) :
  length (ingested sourceName now uuid k ts) = length ts.
Proof.
  revert k. induction ts as [|t ts IH]; intros k; simpl; [reflexivity|].
  now rewrite IH.
Qed.

Lemma ingest_run (data sourceName : string) (w : World) :
  unique_identifiers (graph w) ->
  ingest data sourceName w =
    (Returned
       {| i_success := true;
          i_message :=
            "Ingested "
              ++ Js.string_of_nat (length (accepted (ingest_lines data)))
              ++ " statements";
          entities_created :=
            length (entities_after (accepted (ingest_lines data)) []);
          statements_created := length (accepted (ingest_lines data)) |},
     world_after_lines sourceName (clock w (clock_reads w))
       (accepted (ingest_lines data))
       (mkWorld (graph w) (uuid_source w) (uuid_drawn w) (clock w)
                (S (clock_reads w)) (backend_calls w))).
Proof.
  intros H. unfold ingest, bind at 1, now_iso.
  unfold bind. rewrite ingest_loop_run by exact H.
  reflexivity.
Qed.

Lemma three_fields_Some (line s p o : string) :
  three_fields line = Some (s, p, o) <->
  exists rest,
    map Js.trim (Js.split "," line) = s :: p :: o :: rest
    /\ s <> EmptyString /\ p <> EmptyString /\ o <> EmptyString.
Proof.
  unfold three_fields.
  destruct (map Js.trim (Js.split "," line)) as [|a [|b [|c rest]]].
  1-3: split; [discriminate | intros (r & E & _); discriminate].
  split.
  - destruct a, b, c; simpl; try discriminate.
    intros E. injection E as <- <- <-. exists rest.
    repeat split; discriminate.
  - intros (r & E & Hs & Hp & Ho). injection E as -> -> -> _.
    destruct s, p, o; simpl; congruence.
Qed.

Lemma three_fields_few (line : string) :
  length (filter Js.truthy_string (map Js.trim (Js.split "," line))) < 3 ->
  three_fields line = None.
Proof.
  unfold three_fields.
  destruct (map Js.trim (Js.split "," line)) as [|a [|b [|c rest]]];
    try reflexivity.
  destruct a, b, c; simpl; try reflexivity. lia.
Qed.

(** Claim C4. On a store whose identifiers are unique, [ingest] reads the
    clock once and then, for the lines kept by the blank filter, creates one
    statement for each line whose first three trimmed fields are non-empty
    and nothing for the others: the k-th of them has the k-th drawn [id],
    the trimmed fields as subject, predicate and raw object value,
    [source_id = sourceName] and both time stamps equal to the one reading.
    It returns success, the message with the number of such lines, that
    number as [statements_created] and the number of distinct subjects as
    [entities_created]. A line with fewer than three non-empty fields is
    not among them. *)
Theorem ingest_creates_one_statement_per_valid_line
    (data sourceName : string) (w : World) :
  unique_identifiers (graph w) ->
  let ts := accepted (ingest_lines data) in
  let now := clock w (clock_reads w) in
  exists (r : IngestResult) (w' : World) (created : list Statement),
    ingest data sourceName w = (Returned r, w')
    /\ statements (graph w') = (statements (graph w) ++ created)%list
    /\ length created = length ts
    /\ (forall k s p o,
          nth_error ts k = Some (s, p, o) ->
          nth_error created k =
            Some (mkStatement s o (uuid_source w (uuid_drawn w + k)) p o
                              (Some sourceName) now now))
    /\ clock_reads w' = S (clock_reads w)
    /\ i_success r = true
    /\ i_message r =
         "Ingested " ++ Js.string_of_nat (length ts) ++ " statements"
    /\ statements_created r = length ts
    /\ (exists subjects,
          NoDup subjects
          /\ (forall x, In x subjects <-> In x (map subject_of ts))
          /\ entities_created r = length subjects)
    /\ (forall line s p o,
          three_fields line = Some (s, p, o) <->
          exists rest,
            map Js.trim (Js.split "," line) = s :: p :: o :: rest
            /\ s <> EmptyString /\ p <> EmptyString /\ o <> EmptyString)
    /\ (forall line,
          length (filter Js.truthy_string
                         (map Js.trim (Js.split "," line))) < 3 ->
          three_fields line = None).
Proof.
  intros H ts now.
  eexists _, _, _. split; [apply (ingest_run data sourceName w H)|].
  split; [reflexivity|].
  split; [apply length_ingested|].
  split.
  { intros k s p o E. cbn [uuid_source uuid_drawn].
    rewrite nth_error_ingested. fold ts. rewrite E. reflexivity. }
  split; [reflexivity|].
  split; [reflexivity|].
  split; [reflexivity|].
  split; [reflexivity|].
  split.
  { exists (entities_after ts []). split; [|split].
    - apply entities_after_NoDup. constructor.
    - intros x. rewrite entities_after_In. simpl. tauto.
    - reflexivity. }
  split.
  - apply three_fields_Some.
  - apply three_fields_few.
Qed.

Lemma ingest_creates_one_statement_per_valid_line_witness :
  exists (r : IngestResult) (w' : World),
    ingest Sample.three_lines "feed" Sample.fresh = (Returned r, w')
    /\ length (statements (graph w')) = 2
    /\ statements_created r = 2
    /\ i_message r = "Ingested 2 statements".
Proof.
  destruct (ingest_creates_one_statement_per_valid_line
              Sample.three_lines "feed" Sample.fresh)
    as (r & w' & created & E & Hs & Hl & _ & _ & _ & Hm & Hn & _).
  - constructor.
  - exists r, w'. split; [exact E|]. split; [|split].
    + rewrite Hs, length_app, Hl. reflexivity.
    + rewrite Hn. reflexivity.
    + rewrite Hm. reflexivity.
Defined.

(** The line parsing scenario: two statements, two subjects, and the line
    without a comma left out. *)
Example ingest_three_lines :
  fst (ingest Sample.three_lines "feed" Sample.fresh) =
    Returned (mkIngestResult true "Ingested 2 statements" 2 2)
  /\ map (fun e => (st_subject e, st_predicate e, st_object_value e))
         (statements (graph Sample.fed)) =
     [("a", "likes", "b"); ("c", "knows", "d")].
Proof. split; reflexivity. Qed.

(* ================================================================== *)
(** ** Identifier nodes are never duplicated *)

Lemma identifier_nodes_le_1 (v : string) (g : Graph) :
  unique_identifiers g -> identifier_nodes v g <= 1.
Proof.
  intros H. unfold identifier_nodes. rewrite (filter_eqb_NoDup v _ H).
  destruct (existsb (String.eqb v) (identifiers g)); lia.
Qed.

Lemma perform_run (op : Mutation) (w : World) :
  unique_identifiers (graph w) ->
  fst (perform op w) = Returned tt
  /\ unique_identifiers (graph (snd (perform op w)))
  /\ forall x, In x (identifiers (graph (snd (perform op w)))) <->
               In x (identifiers (graph w)) \/ In x (merged_values op).
Proof.
  intros H. destruct op as [input | data sourceName]; unfold perform, bind.
  - rewrite (createStatement_run input w H). cbn [fst snd ret].
    split; [reflexivity|]. split; [now apply world_after_create_unique|].
    intros x.
    cbn [world_after_create graph identifiers merged_values stored_statement
         st_object st_subject].
    rewrite !set_add_In. cbn [In]. intuition congruence.
  - rewrite (ingest_run data sourceName w H). cbn [fst snd ret].
    split; [reflexivity|].
    split; [now apply world_after_lines_unique|].
    intros x. cbn [world_after_lines graph identifiers merged_values].
    apply merged_nodes_In.
Qed.

Lemma perform_all_run (ops : list Mutation) :
  forall w : World,
    unique_identifiers (graph w) ->
    fst (perform_all ops w) = Returned tt
    /\ unique_identifiers (graph (snd (perform_all ops w)))
    /\ forall x, In x (identifiers (graph (snd (perform_all ops w)))) <->
                 In x (identifiers (graph w))
                 \/ exists op, In op ops /\ In x (merged_values op).
Proof.
  induction ops as [|op ops IH]; intros w H.
  - simpl. split; [reflexivity|]. split; [exact H|].
    intros x. split; [tauto | intros [?|(op & [] & _)]; assumption].
  - destruct (perform_run op w H) as (E & U & I).
    cbn [perform_all]. unfold bind.
    destruct (perform op w) as [[[]|err] w1]; [|discriminate].
    cbn [fst snd] in *.
    destruct (IH w1 U) as (E' & U' & I').
    split; [exact E'|]. split; [exact U'|].
    intros x. rewrite I', I. split.
    + intros [[?|?]|(op' & ? & ?)].
      * now left.
      * right. exists op. split; [now left | assumption].
      * right. exists op'. split; [now right | assumption].
    + intros [?|(op' & [<-|?] & ?)].
      * now left; left.
      * now left; right.
      * right. exists op'. now split.
Qed.

(** Claim C3. From a store with at most one [Identifier] node per value,
    any sequence of [createStatement] and [ingest] calls succeeds and leaves
    at most one node per value; a value that one of the calls merged, as a
    subject or as an object key, is carried by exactly one node. *)
Theorem identifier_merge_is_idempotent (ops : list Mutation) (w : World) :
  unique_identifiers (graph w) ->
  fst (perform_all ops w) = Returned tt
  /\ (forall s, identifier_nodes s (graph (snd (perform_all ops w))) <= 1)
  /\ (forall s,
        (exists op, In op ops /\ In s (merged_values op)) ->
        identifier_nodes s (graph (snd (perform_all ops w))) = 1).
Proof.
  intros H. destruct (perform_all_run ops w H) as (E & U & I).
  split; [exact E|]. split.
  - intros s. now apply identifier_nodes_le_1.
  - intros s Hs. apply identifier_nodes_one; [exact U|].
    apply I. now right.
Qed.

Lemma identifier_merge_is_idempotent_witness :
  identifier_nodes "alice"
    (graph (snd (perform_all
                   [Create Sample.alice_knows_bob;
                    Ingest "alice,likes,carol" "feed";
                    Create Sample.alice_knows_bob] Sample.fresh))) = 1.
Proof.
  apply (identifier_merge_is_idempotent
           [Create Sample.alice_knows_bob;
            Ingest "alice,likes,carol" "feed";
            Create Sample.alice_knows_bob] Sample.fresh).
  - constructor.
  - exists (Create Sample.alice_knows_bob). split; [now left | now left].
Defined.

(* ================================================================== *)
(** ** [searchStatements] *)

Lemma prefix_spec (q s : string) :
  String.prefix q s = true <-> exists b, s = q ++ b.
Proof.
  revert s. induction q as [|c q IH]; intros s.
  - split; [intros _; now exists s | intros _; destruct s; reflexivity].
  - destruct s as [|d s]; simpl.
    + split; [discriminate | intros (b & E); discriminate].
    + destruct (Ascii.ascii_dec c d) as [->|N].
      * rewrite IH. split; intros (b & E); exists b; congruence.
      * split; [discriminate | intros (b & E); congruence].
Qed.

Lemma contains_spec (s q : string) :
  Cypher.contains s q = true <-> substring q s.
Proof.
  unfold substring. induction s as [|c s IH].
  - cbn [Cypher.contains]. rewrite orb_false_r, prefix_spec. split.
    + intros (b & E). now exists EmptyString, b.
    + intros (a & b & E). destruct a; [now exists b | discriminate].
  - cbn [Cypher.contains]. rewrite orb_true_iff, prefix_spec, IH. split.
    + intros [(b & E) | (a & b & E)].
      * now exists EmptyString, b.
      * exists (String c a), b. simpl. now rewrite E.
    + intros (a & b & E). destruct a as [|d a].
      * left. now exists b.
      * right. exists a, b. simpl in E. congruence.
Qed.

Lemma contains_empty (s : string) : Cypher.contains s EmptyString = true.
Proof. destruct s; reflexivity. Qed.

Lemma search_match_spec (query : string) (e : Statement) :
  Backend.search_match query e = true <->
  substring (Cypher.toLower query) (Cypher.toLower (st_object_value e))
  \/ substring (Cypher.toLower query) (Cypher.toLower (st_subject e)).
Proof.
  unfold Backend.search_match. now rewrite orb_true_iff, !contains_spec.
Qed.

Lemma searchStatements_run (query : string) (w : World) :
  searchStatements query w =
    (Returned (firstn 100 (map view (filter (Backend.search_match query)
                                            (statements (graph w))))),
     mkWorld (graph w) (uuid_source w) (uuid_drawn w) (clock w)
             (clock_reads w) (backend_calls w ++ [SearchStatements query])%list).
Proof.
  unfold searchStatements, bind, session_run, ret.
  cbn [Backend.execute]. rewrite <- firstn_map, map_map. reflexivity.
Qed.

Lemma In_firstn {A} (n : nat) (l : list A) (x : A) :
  In x (firstn n l) -> In x l.
Proof.
  intros H. rewrite <- (firstn_skipn n l). apply in_or_app. now left.
Qed.

(** Claim C5, as the code has it. [searchStatements] never throws; its
    result is the first hundred, at most, of the stored statements whose
    lower-cased [object_value] or lower-cased subject value contains the
    lower-cased query: every record returned is one of them, and when
    there are no more than a hundred, all of them are returned. The empty
    query matches every statement; any other query, white space included,
    is matched as it is written. *)
Theorem searchStatements_contains_capped (query : string) (w : World) :
  exists result : list StatementView,
    fst (searchStatements query w) = Returned result
    /\ graph (snd (searchStatements query w)) = graph w
    /\ result = firstn 100 (map view (filter (Backend.search_match query)
                                             (statements (graph w))))
    /\ length result <= 100
    /\ (forall e,
          Backend.search_match query e = true <->
          substring (Cypher.toLower query) (Cypher.toLower (st_object_value e))
          \/ substring (Cypher.toLower query) (Cypher.toLower (st_subject e)))
    /\ (forall v, In v result ->
          exists e, In e (statements (graph w))
                    /\ Backend.search_match query e = true /\ v = view e)
    /\ (length (filter (Backend.search_match query) (statements (graph w)))
          <= 100 ->
        forall e, In e (statements (graph w)) ->
                  Backend.search_match query e = true -> In (view e) result)
    /\ (forall e, Backend.search_match EmptyString e = true).
Proof.
  eexists. rewrite searchStatements_run. cbn [fst snd graph].
  split; [reflexivity|]. split; [reflexivity|]. split; [reflexivity|].
  split; [apply firstn_le_length|].
  split; [apply search_match_spec|].
  split; [|split].
  - intros v Hv. apply In_firstn, in_map_iff in Hv as (e & <- & He).
    apply filter_In in He as (He & Hm). now exists e.
  - intros Hle e He Hm.
    rewrite firstn_all2 by now rewrite length_map.
    apply in_map, filter_In. now split.
  - intros e. unfold Backend.search_match. cbn [Cypher.toLower].
    now rewrite contains_empty.
Qed.

(** Claim C5 fails as stated for a white space query: on the store of two
    ingested statements the query of one space returns nothing. *)
Lemma searchStatements_whitespace_counterexample :
  fst (searchStatements " " Sample.fed) = Returned []
  /\ length (statements (graph Sample.fed)) = 2
  /\ Js.trim " " = EmptyString.
Proof. repeat split. Qed.

(* ================================================================== *)
(** ** Ordering and pages *)

Lemma insert_desc_perm (e : Statement) (l : list Statement) :
  Permutation (e :: l) (Backend.insert_desc e l).
Proof.
  induction l as [|x l IH]; simpl; [reflexivity|].
  destruct (st_created_at x <=? st_created_at e)%string; [reflexivity|].
  rewrite perm_swap. now apply perm_skip.
Qed.

Lemma order_desc_perm (l : list Statement) :
  Permutation l (Backend.order_desc l).
Proof.
  induction l as [|e l IH]; simpl; [reflexivity|].
  rewrite <- insert_desc_perm. now apply perm_skip.
Qed.

Lemma insert_desc_sorted (e : Statement) (l : list Statement) :
  Sorted newer_first l -> Sorted newer_first (Backend.insert_desc e l).
Proof.
  induction 1 as [|x l Hl IH Hx]; simpl.
  - repeat constructor.
  - destruct (st_created_at x <=? st_created_at e)%string eqn:E.
    + constructor; [now constructor | now constructor].
    + constructor; [exact IH|].
      assert (Hex : newer_first x e).
      { unfold newer_first.
        destruct (String.leb_total (st_created_at x) (st_created_at e));
          congruence. }
      destruct Hx as [|y l' Hy]; simpl.
      * now constructor.
      * destruct (st_created_at y <=? st_created_at e)%string;
          now constructor.
Qed.

Lemma order_desc_sorted (l : list Statement) :
  Sorted newer_first (Backend.order_desc l).
Proof.
  induction l as [|e l IH]; simpl; [constructor|].
  now apply insert_desc_sorted.
Qed.

Lemma firstn_plus {A} (n m : nat) (l : list A) :
  firstn (n + m) l = (firstn n l ++ firstn m (skipn n l))%list.
Proof.
  revert l. induction n as [|n IH]; intros l; [reflexivity|].
  destruct l as [|x l]; simpl.
  - now rewrite firstn_nil.
  - now rewrite IH.
Qed.

(** Consecutive windows of a fixed width put together give a prefix. *)
Lemma concat_windows {A} (width : nat) (l : list A) (k : nat) :
  concat (map (fun i => firstn width (skipn (i * width) l)) (seq 0 k)) =
  firstn (k * width) l.
Proof.
  induction k as [|k IH]; [reflexivity|].
  rewrite seq_S, map_app, concat_app, IH. simpl.
  rewrite app_nil_r, (Nat.add_comm width), firstn_plus. reflexivity.
Qed.

Lemma last_page_covers (total width : nat) :
  0 < width -> total <= S ((total - 1) / width) * width.
Proof.
  intros H.
  pose proof (Nat.div_mod (total - 1) width ltac:(lia)) as E.
  pose proof (Nat.mod_upper_bound (total - 1) width ltac:(lia)) as B.
  nia.
Qed.

Lemma more_before_last (total width i : nat) :
  0 < width -> i <= (total - 1) / width ->
  (i * width + Nat.min width (total - i * width) < total
   <-> i <> (total - 1) / width).
Proof.
  intros H Hi.
  pose proof (Nat.div_mod (total - 1) width ltac:(lia)) as E.
  pose proof (Nat.mod_upper_bound (total - 1) width ltac:(lia)) as B.
  destruct (Nat.eq_dec i ((total - 1) / width)) as [->|N].
  - split; [|tauto]. intros L _. nia.
  - split; [tauto|]. intros _.
    assert (S i <= (total - 1) / width) by lia. nia.
Qed.

Lemma count_total (n : nat) :
  toNumber_or_zero (first_get (Backend.count_row "total" n) "total") =
  Z.of_nat n.
Proof. reflexivity. Qed.

Lemma statementsBySubject_run (identifier : string) (limit offset : Z)
    (w : World) :
  (0 <= limit)%Z -> (0 <= offset)%Z ->
  statementsBySubject identifier limit offset w =
    (Returned
       (make_page offset
          (firstn (Z.to_nat limit)
             (skipn (Z.to_nat offset)
                (map Backend.row
                   (Backend.order_desc
                      (filter (Backend.has_subject identifier)
                              (statements (graph w)))))))
          (Z.of_nat (length (filter (Backend.has_subject identifier)
                                    (statements (graph w)))))),
     mkWorld (graph w) (uuid_source w) (uuid_drawn w) (clock w)
             (clock_reads w)
             ((backend_calls w ++ [CountBySubject identifier]) ++
                [PageBySubject identifier offset limit])%list).
Proof.
  intros Hl Ho.
  unfold statementsBySubject, bind, session_run, ret.
  cbn [Backend.execute graph uuid_source uuid_drawn clock clock_reads
       backend_calls].
  unfold Backend.skip_limit.
  replace (offset <? 0)%Z with false by (symmetry; apply Z.ltb_ge; lia).
  replace (limit <? 0)%Z with false by (symmetry; apply Z.ltb_ge; lia).
  cbn [orb]. rewrite count_total. reflexivity.
Qed.

Lemma nth_error_map_seq {A} (f : nat -> A) (k i : nat) (p : A) :
  nth_error (map f (seq 0 k)) i = Some p -> i < k /\ p = f i.
Proof.
  intros E.
  assert (Hi : i < k).
  { rewrite <- (length_seq k 0), <- (length_map f).
    apply nth_error_Some. congruence. }
  split; [exact Hi|].
  rewrite nth_error_map, (nth_error_nth' (seq 0 k) 0) in E
    by now rewrite length_seq.
  rewrite seq_nth in E by exact Hi. simpl in E. congruence.
Qed.

Lemma map_format_window (width skip : nat) (l : list Statement) :
  map formatStatement (firstn width (skipn skip (map Backend.row l))) =
  firstn width (skipn skip (map view l)).
Proof.
  rewrite !skipn_map, !firstn_map, map_map. reflexivity.
Qed.

(* ================================================================== *)
(** ** [deleteStatement] *)

Lemma deleteStatement_run (id : string) (w : World) :
  deleteStatement id w =
    (Returned
       (let deleted :=
          (0 <? Z.of_nat (length (filter (Backend.has_id id)
                                         (statements (graph w)))))%Z in
        {| d_success := deleted;
           d_message := if deleted then "Statement deleted"
                        else "Statement not found";
           d_id := id |}),
     mkWorld
       (mkGraph (identifiers (graph w))
                (filter (fun e => negb (Backend.has_id id e))
                        (statements (graph w))))
       (uuid_source w) (uuid_drawn w) (clock w) (clock_reads w)
       (backend_calls w ++ [DeleteStatement id])%list).
Proof. reflexivity. Qed.

Lemma filter_has_id_removed (id : string) (l : list Statement) :
  filter (Backend.has_id id)
         (filter (fun e => negb (Backend.has_id id e)) l) = [].
Proof.
  induction l as [|x l IH]; simpl; [reflexivity|].
  destruct (Backend.has_id id x) eqn:E; simpl; [exact IH|].
  now rewrite E.
Qed.

Lemma has_id_true (id : string) (e : Statement) :
  Backend.has_id id e = true <-> st_id e = id.
Proof. unfold Backend.has_id. apply String.eqb_eq. Qed.

Lemma positive_length_filter {A} (f : A -> bool) (l : list A) :
  (0 <? Z.of_nat (length (filter f l)))%Z = true <->
  exists x, In x l /\ f x = true.
Proof.
  rewrite Z.ltb_lt. split.
  - destruct (filter f l) as [|x r] eqn:E; simpl; [lia|].
    intros _. exists x. apply filter_In. rewrite E. now left.
  - intros (x & Hx & Hf).
    assert (In x (filter f l)) by (apply filter_In; now split).
    destruct (filter f l); simpl in *; [contradiction | lia].
Qed.

(** Claim C7. [deleteStatement] never throws and echoes the [id]. Its
    [success] is true with the message [Statement deleted] exactly when a
    statement of that [id] was stored, and false with [Statement not found]
    otherwise. It removes the statements of that [id] and no other, so that
    [statement] of the [id] is absent afterwards and a second delete reports
    that nothing was found. *)
Theorem deleteStatement_reports_and_removes (id : string) (w : World) :
  exists (r : DeleteResult) (w' : World),
    deleteStatement id w = (Returned r, w')
    /\ d_id r = id
    /\ (d_success r = true <->
        exists e, In e (statements (graph w)) /\ st_id e = id)
    /\ (d_success r = true /\ d_message r = "Statement deleted"
        \/ d_success r = false /\ d_message r = "Statement not found")
    /\ (forall e, In e (statements (graph w')) <->
                  In e (statements (graph w)) /\ st_id e <> id)
    /\ identifiers (graph w') = identifiers (graph w)
    /\ fst (statement id w') = Returned None
    /\ fst (deleteStatement id w') =
         Returned (mkDeleteResult false "Statement not found" id).
Proof.
  eexists _, _. split; [apply deleteStatement_run|].
  cbn [d_id d_success d_message graph statements identifiers].
  split; [reflexivity|]. split; [|split; [|split; [|split; [|split]]]].
  - rewrite positive_length_filter.
    split; intros (e & He & Hid); exists e; (split; [exact He|]);
      now apply has_id_true.
  - destruct (0 <? _)%Z; [left | right]; now split.
  - intros e. rewrite filter_In, negb_true_iff.
    rewrite <- (has_id_true id e).
    destruct (Backend.has_id id e); intuition congruence.
  - reflexivity.
  - rewrite statement_run. cbn [fst graph statements].
    now rewrite filter_has_id_removed.
  - rewrite deleteStatement_run. cbn [fst graph statements].
    now rewrite filter_has_id_removed.
Qed.

(** The delete scenario on the store of two ingested statements. *)
Example delete_then_read :
  fst (deleteStatement (Sample.uuids 1) Sample.fed) =
    Returned (mkDeleteResult true "Statement deleted" (Sample.uuids 1))
  /\ fst (statement (Sample.uuids 1)
            (snd (deleteStatement (Sample.uuids 1) Sample.fed))) =
     Returned None
  /\ fst (deleteStatement "no-such-id" Sample.fed) =
     Returned (mkDeleteResult false "Statement not found" "no-such-id").
Proof. repeat split. Qed.

(* ================================================================== *)
(** ** Bounds and the search term *)

Lemma skip_limit_negative {A} (offset limit : Z) (rows : list A) :
  (offset < 0 \/ limit < 0)%Z ->
  Backend.skip_limit offset limit rows =
    inl "Invalid input: must be a non-negative integer".
Proof.
  intros H. unfold Backend.skip_limit.
  destruct (Z.ltb_spec offset 0), (Z.ltb_spec limit 0);
    try reflexivity; lia.
Qed.

Ltac run_two_queries :=
  unfold statementsBySubject, statementsByPredicate, paginatedStatements,
         bind, session_run, ret;
  cbn [Backend.execute graph uuid_source uuid_drawn clock clock_reads
       backend_calls].

(** Claim C8, as the code has it. The three paginated resolvers check no
    bound: with a negative [offset] or [limit] the count query has been sent
    to the backend, then the page query, and what is thrown is the error of
    the backend on the second. The search route alone throws a request
    error without any query sent, when [q] is missing or empty. *)
Theorem negative_bounds_reach_the_backend
    (name : string) (limit offset : Z) (w : World) :
  (offset < 0 \/ limit < 0)%Z ->
  (exists message,
     fst (statementsBySubject name limit offset w)
       = Thrown (BackendError message)
     /\ backend_calls (snd (statementsBySubject name limit offset w)) =
        (backend_calls w ++
           [CountBySubject name; PageBySubject name offset limit])%list)
  /\ (exists message,
        fst (statementsByPredicate name limit offset w)
          = Thrown (BackendError message)
        /\ backend_calls (snd (statementsByPredicate name limit offset w)) =
           (backend_calls w ++
              [CountByPredicate name; PageByPredicate name offset limit])%list)
  /\ (exists message,
        fst (paginatedStatements limit offset w)
          = Thrown (BackendError message)
        /\ backend_calls (snd (paginatedStatements limit offset w)) =
           (backend_calls w ++ [CountAll; PageAll offset limit])%list)
  /\ api_search None w =
       (Thrown (RequestError "Query parameter 'q' is required"), w)
  /\ api_search (Some EmptyString) w =
       (Thrown (RequestError "Query parameter 'q' is required"), w).
Proof.
  intros H.
  split; [|split; [|split; [|split; reflexivity]]];
    run_two_queries; rewrite (skip_limit_negative _ _ _ H);
    cbn [fst snd backend_calls]; rewrite <- app_assoc;
    eexists; split; reflexivity.
Qed.

Lemma negative_bounds_reach_the_backend_witness :
  backend_calls (snd (statementsBySubject "a" 10 (-1) Sample.fed)) =
    (backend_calls Sample.fed ++
       [CountBySubject "a"; PageBySubject "a" (-1) 10])%list.
Proof.
  destruct (negative_bounds_reach_the_backend "a" 10 (-1) Sample.fed)
    as ((message & _ & Hcalls) & _).
  - left. reflexivity.
  - exact Hcalls.
Defined.

(** Claim C8 fails as stated: with the offset -1 the resolver has sent two
    queries to the backend before anything is thrown, and what is thrown
    is the backend's error, not one of the request. *)
Lemma negative_offset_counterexample :
  backend_calls (snd (statementsBySubject "a" 10 (-1) Sample.fresh)) =
    [CountBySubject "a"; PageBySubject "a" (-1) 10]
  /\ backend_calls Sample.fresh = []
  /\ fst (statementsBySubject "a" 10 (-1) Sample.fresh) =
     Thrown (BackendError
               "Neo4j error: Invalid input: must be a non-negative integer").
Proof. repeat split. Qed.

(* ================================================================== *)
(** ** A falsy [source_id] *)

(** Claim C9. [formatStatement] gives null for every falsy [source_id] of
    a record. So a stored statement whose [source_id] is the empty string
    reads like the same statement without a [source_id]; and
    [createStatement] with the empty string as [source_id] does what it
    does without one. *)
Theorem falsy_source_id_reads_as_null :
  (forall r, Json.truthy (get r "source_id") = false ->
             v_source_id (formatStatement r) = Some JNull)
  /\ (forall e, st_source_id e = Some EmptyString ->
                v_source_id (view e) = Some JNull
                /\ view e = view (without_source e))
  /\ (forall e, st_source_id e = None -> v_source_id (view e) = Some JNull)
  /\ (forall input w,
        createStatement (with_source input (Some EmptyString)) w =
        createStatement (with_source input None) w)
  /\ (forall sourceName now id t,
        sourceName = EmptyString ->
        v_source_id (view (ingested_statement sourceName now id t))
          = Some JNull).
Proof.
  split; [|split; [|split; [|split]]].
  - intros r H. unfold formatStatement, Json.or_null. cbn [v_source_id].
    now rewrite H.
  - intros [s o i p ov src t c] E. cbn [st_source_id] in E. subst src.
    split; reflexivity.
  - intros [s o i p ov src t c] E. cbn [st_source_id] in E. subst src.
    reflexivity.
  - reflexivity.
  - intros sourceName now id t ->. reflexivity.
Qed.

(* ================================================================== *)
(** ** Fields after the third *)






(** A fourth field is dropped: the object stored is the third field. *)
Example ingest_four_fields :
  fst (ingest "a,likes,b,c, d" "feed" Sample.fresh) =
    Returned (mkIngestResult true "Ingested 1 statements" 1 1)
  /\ map st_object_value
         (statements (graph (snd (ingest "a,likes,b,c, d" "feed"
                                         Sample.fresh)))) = ["b"].
Proof. split; reflexivity. Qed.

(* ================================================================== *)
(** ** The subject listings *)

Lemma distinct_In (x : string) (l : list string) :
  In x (Listing.distinct l) <-> In x l.
Proof.
  induction l as [|y l IH]; simpl; [tauto|].
  rewrite filter_In, IH, negb_true_iff.
  destruct (String.eqb_spec y x) as [E|N].
  - subst. tauto.
  - intuition.
Qed.

Lemma distinct_NoDup (l : list string) : NoDup (Listing.distinct l).
Proof.
  induction l as [|y l IH]; simpl; constructor.
  - rewrite filter_In, negb_true_iff, String.eqb_refl.
    intros [_ H]. discriminate.
  - now apply NoDup_filter.
Qed.

Lemma insert_asc_perm (s : string) (l : list string) :
  Permutation (s :: l) (Listing.insert_asc s l).
Proof.
  induction l as [|x l IH]; simpl; [reflexivity|].
  destruct (s <=? x)%string; [reflexivity|].
  rewrite perm_swap. now apply perm_skip.
Qed.

Lemma order_asc_perm (l : list string) :
  Permutation l (Listing.order_asc l).
Proof.
  induction l as [|s l IH]; simpl; [reflexivity|].
  rewrite <- insert_asc_perm. now apply perm_skip.
Qed.

Lemma insert_asc_sorted (s : string) (l : list string) :
  Sorted (fun a b => (a <=? b)%string = true) l ->
  Sorted (fun a b => (a <=? b)%string = true) (Listing.insert_asc s l).
Proof.
  induction 1 as [|x l Hl IH Hx]; simpl.
  - repeat constructor.
  - destruct (s <=? x)%string eqn:E.
    + constructor; [now constructor | now constructor].
    + constructor; [exact IH|].
      assert (Hxs : (x <=? s)%string = true)
        by (destruct (String.leb_total s x); congruence).
      destruct Hx as [|y l' Hy]; simpl.
      * now constructor.
      * destruct (s <=? y)%string; now constructor.
Qed.

Lemma order_asc_sorted (l : list string) :
  Sorted (fun a b => (a <=? b)%string = true) (Listing.order_asc l).
Proof.
  induction l as [|s l IH]; simpl; [constructor|].
  now apply insert_asc_sorted.
Qed.

Lemma sorted_NoDup_strict (l : list string) :
  Sorted (fun a b => (a <=? b)%string = true) l -> NoDup l ->
  Sorted strictly_before l.
Proof.
  induction 1 as [|x l Hl IH Hx]; intros N; constructor.
  - apply IH. now inversion N.
  - destruct Hx as [|y l' Hy]; constructor.
    split; [exact Hy|].
    intros ->. inversion N as [|? ? Hin _]. apply Hin. now left.
Qed.

Lemma subjects_run (w : World) :
  subjects w =
    (Returned (map (fun s => Some (JStr s))
                   (Listing.order_asc
                      (Listing.distinct
                         (map st_subject (statements (graph w)))))),
     mkWorld (graph w) (uuid_source w) (uuid_drawn w) (clock w)
             (clock_reads w) (backend_calls w ++ [ListSubjects])%list).
Proof.
  unfold subjects, bind, session_run, ret.
  cbn [Backend.execute]. unfold Listing.subjects_sorted.
  now rewrite map_map.
Qed.

(** The resolver [subjects] sends one query, never throws and leaves the
    graph as it is; the names it returns are the subject values that have
    a statement, each once, in strictly ascending order. *)
Theorem subjects_sorted_without_duplicates (w : World) :
  exists names : list string,
    fst (subjects w) = Returned (map (fun s => Some (JStr s)) names)
    /\ graph (snd (subjects w)) = graph w
    /\ backend_calls (snd (subjects w)) =
       (backend_calls w ++ [ListSubjects])%list
    /\ Sorted strictly_before names
    /\ NoDup names
    /\ (forall s, In s names <->
                  exists e, In e (statements (graph w)) /\ st_subject e = s).
Proof.
  exists (Listing.order_asc
            (Listing.distinct (map st_subject (statements (graph w))))).
  assert (N : NoDup (Listing.order_asc
             (Listing.distinct (map st_subject (statements (graph w)))))).
  { eapply Permutation_NoDup; [apply order_asc_perm | apply distinct_NoDup]. }
  rewrite subjects_run. cbn [fst snd graph backend_calls].
  split; [reflexivity|]. split; [reflexivity|]. split; [reflexivity|].
  split; [|split].
  - apply sorted_NoDup_strict; [apply order_asc_sorted | exact N].
  - exact N.
  - intros s. split.
    + intros H. eapply Permutation_in in H;
        [|symmetry; apply order_asc_perm].
      apply distinct_In, in_map_iff in H as (e & E & He). now exists e.
    + intros (e & He & E).
      eapply Permutation_in; [apply order_asc_perm|].
      apply distinct_In, in_map_iff. now exists e.
Qed.

(* ================================================================== *)
(** ** The routes beside the resolvers *)

Lemma rest_view_with_null_source (e : Statement) :
  with_null_source (rest_view (Backend.rest_row e)) = view e.
Proof. reflexivity. Qed.

(** The subject route sends one query and returns the list of the resolver
    [subjects] with its length. The data route sends two queries and
    returns one object for every stored statement, each once, and the same
    subjects, each once, in some order. Neither throws nor changes the
    graph. *)
Theorem routes_list_the_whole_store (w : World) :
  exists (sorted names : list string) (views : list StatementView),
    fst (subjects w) = Returned (map (fun s => Some (JStr s)) sorted)
    /\ fst (api_subjects w) =
         Returned (map (fun s => Some (JStr s)) sorted, length sorted)
    /\ graph (snd (api_subjects w)) = graph w
    /\ backend_calls (snd (api_subjects w)) =
         (backend_calls w ++ [RestSubjects])%list
    /\ fst (api_data w) =
         Returned (views, map (fun s => Some (JStr s)) names)
    /\ graph (snd (api_data w)) = graph w
    /\ backend_calls (snd (api_data w)) =
         (backend_calls w ++ [RestStatements; RestDataSubjects])%list
    /\ Permutation views
                   (map (fun e => rest_view (Backend.rest_row e))
                        (statements (graph w)))
    /\ Permutation names sorted
    /\ NoDup names.
Proof.
  exists (Listing.order_asc
            (Listing.distinct (map st_subject (statements (graph w))))),
         (Listing.distinct (map st_subject (statements (graph w)))),
         (map (fun e => rest_view (Backend.rest_row e))
              (statements (graph w))).
  rewrite subjects_run.
  unfold api_subjects, api_data, bind, session_run, ret.
  cbn [Backend.execute fst snd graph backend_calls uuid_source uuid_drawn
       clock clock_reads].
  unfold Listing.subjects_sorted, Listing.subjects_unsorted.
  rewrite !map_map, !length_map, <- app_assoc.
  repeat split.
  - reflexivity.
  - apply order_asc_perm.
  - apply distinct_NoDup.
Qed.

(** For a search term that is not empty the search route returns at most a
    hundred objects with their number, and the resolver [searchStatements]
    returns for the same term the same objects with [|| null] applied to
    their [source_id]. *)
Theorem api_search_agrees_with_searchStatements (q : string) (w : World) :
  q <> EmptyString ->
  exists found : list StatementView,
    fst (api_search (Some q) w) = Returned (found, length found)
    /\ graph (snd (api_search (Some q) w)) = graph w
    /\ length found <= 100
    /\ fst (searchStatements q w) = Returned (map with_null_source found).
Proof.
  intros Hq. destruct q as [|c q]; [contradiction|].
  exists (map rest_view
            (firstn 100 (map Backend.rest_row
                           (filter (Backend.search_match (String c q))
                                   (statements (graph w)))))).
  unfold api_search, bind, session_run, ret. cbn [Backend.execute fst snd graph].
  split; [reflexivity|]. split; [reflexivity|]. split.
  - rewrite length_map. apply firstn_le_length.
  - rewrite searchStatements_run. cbn [fst].
    rewrite <- !firstn_map, !map_map. reflexivity.
Qed.

Lemma api_search_agrees_with_searchStatements_witness :
  exists found : list StatementView,
    fst (api_search (Some "B") Sample.fed) = Returned (found, length found)
    /\ graph (snd (api_search (Some "B") Sample.fed)) = graph Sample.fed
    /\ length found <= 100
    /\ fst (searchStatements "B" Sample.fed)
       = Returned (map with_null_source found).
Proof.
  apply (api_search_agrees_with_searchStatements "B" Sample.fed).
  discriminate.
Defined.

(* ================================================================== *)
(** ** Pages of the three paginated resolvers *)


Ltac run_window :=
  intros limit offset w Hl Ho;
  unfold statementsBySubject, statementsByPredicate, paginatedStatements,
         bind, session_run, ret;
  cbn [Backend.execute graph uuid_source uuid_drawn clock clock_reads
       backend_calls];
  unfold Backend.skip_limit;
  replace (offset <? 0)%Z with false by (symmetry; apply Z.ltb_ge; lia);
  replace (limit <? 0)%Z with false by (symmetry; apply Z.ltb_ge; lia);
  cbn [orb fst snd graph]; rewrite count_total; split; reflexivity.

Lemma statementsBySubject_window (identifier : string) :
  runs_as_window (statementsBySubject identifier)
    (fun g => filter (Backend.has_subject identifier) (statements g)).
Proof. run_window. Qed.

Lemma statementsByPredicate_window (predicate : string) :
  runs_as_window (statementsByPredicate predicate)
    (fun g => filter (Backend.has_predicate predicate) (statements g)).
Proof. run_window. Qed.

Lemma paginatedStatements_window :
  runs_as_window paginatedStatements statements.
Proof. run_window. Qed.

(** *** The order is fixed when no two rows share a [created_at] *)

Lemma string_leb_iff (a b : string) :
  (a <=? b)%string = true <-> a = b \/ OrderedTypeEx.String_as_OT.lt a b.
Proof.
  unfold String.leb.
  destruct (String.compare a b) eqn:E.
  - apply String.compare_eq_iff in E. split; [now left | reflexivity].
  - apply OrderedTypeEx.String_as_OT.cmp_lt in E.
    split; [now right | reflexivity].
  - split; [discriminate|]. intros [->|L].
    + assert (String.compare b b = Eq)
        by now apply OrderedTypeEx.String_as_OT.cmp_eq.
      congruence.
    + apply OrderedTypeEx.String_as_OT.cmp_lt in L.
      unfold OrderedTypeEx.String_as_OT.cmp in L. congruence.
Qed.

Lemma string_leb_trans (a b c : string) :
  (a <=? b)%string = true -> (b <=? c)%string = true ->
  (a <=? c)%string = true.
Proof.
  rewrite !string_leb_iff. intros [->|L1] [->|L2]; auto.
  right. eapply OrderedTypeEx.String_as_OT.lt_trans; eassumption.
Qed.

Lemma newer_first_trans : Relations_1.Transitive newer_first.
Proof.
  intros x y z Hxy Hyz. unfold newer_first in *.
  eapply string_leb_trans; eassumption.
Qed.

Lemma same_key_same_row {A B} (f : A -> B) (l : list A) (x y : A) :
  NoDup (map f l) -> In x l -> In y l -> f x = f y -> x = y.
Proof.
  induction l as [|z l IH]; intros N Hx Hy E; [destruct Hx|].
  simpl in N. inversion N as [|? ? Hz Hl]; subst.
  destruct Hx as [->|Hx], Hy as [->|Hy].
  - reflexivity.
  - exfalso. apply Hz. rewrite E. now apply in_map.
  - exfalso. apply Hz. rewrite <- E. now apply in_map.
  - now apply IH.
Qed.

Lemma sorted_arrangement_unique (a : list Statement) :
  forall b,
    Permutation a b ->
    StronglySorted newer_first a -> StronglySorted newer_first b ->
    NoDup (map st_created_at a) ->
    a = b.
Proof.
  induction a as [|x a IH]; intros b P Sa Sb N.
  - symmetry. now apply Permutation_nil.
  - destruct b as [|y b].
    + apply Permutation_sym, Permutation_nil in P. discriminate.
    + apply StronglySorted_inv in Sa as (Sa & Fa).
      apply StronglySorted_inv in Sb as (Sb & Fb).
      rewrite Forall_forall in Fa, Fb.
      assert (Hy : In y (x :: a)).
      { eapply Permutation_in; [symmetry; exact P | now left]. }
      assert (Hx : In x (y :: b)).
      { eapply Permutation_in; [exact P | now left]. }
      assert (E : x = y).
      { apply (same_key_same_row st_created_at (x :: a) x y N);
          [now left | exact Hy |].
        apply String.leb_antisym.
        - destruct Hx as [->|Hx]; [|exact (Fb x Hx)].
          destruct (String.leb_total (st_created_at x) (st_created_at x));
            assumption.
        - destruct Hy as [->|Hy]; [|exact (Fa y Hy)].
          destruct (String.leb_total (st_created_at y) (st_created_at y));
            assumption. }
      subst y. f_equal. apply IH; try assumption.
      * eapply Permutation_cons_inv. exact P.
      * simpl in N. now inversion N.
Qed.

Lemma newest_first_unique (rows answer : list Statement) :
  NoDup (map st_created_at rows) ->
  newest_first rows answer ->
  answer = Backend.order_desc rows.
Proof.
  intros N (P & S).
  apply sorted_arrangement_unique.
  - rewrite <- P. apply order_desc_perm.
  - apply Sorted_StronglySorted; [exact newer_first_trans | exact S].
  - apply Sorted_StronglySorted;
      [exact newer_first_trans | apply order_desc_sorted].
  - eapply Permutation_NoDup; [|exact N]. now apply Permutation_map.
Qed.

Lemma stable_fair : fair stable.
Proof.
  intros q rows. split; [apply order_desc_perm | apply order_desc_sorted].
Qed.

Lemma turning_fair : fair turning.
Proof.
  assert (R : forall rows, newest_first rows (Backend.order_desc (rev rows))).
  { intros rows. split; [|apply order_desc_sorted].
    rewrite <- order_desc_perm. apply Permutation_rev. }
  assert (S : forall rows, newest_first rows (Backend.order_desc rows)).
  { intros rows. split; [apply order_desc_perm | apply order_desc_sorted]. }
  intros q rows. unfold turning.
  destruct q; try apply R. destruct offset; [apply S | apply R | apply R].
Qed.

(** *** Pages under any fair order *)

Ltac run_window_under :=
  intros limit offset w Hl Ho;
  unfold statementsBySubject_under, statementsByPredicate_under,
         paginatedStatements_under, bind, session_run_under, ret;
  cbn [Ties.execute Ties.page_rows Backend.execute graph uuid_source
       uuid_drawn clock clock_reads backend_calls];
  unfold Backend.skip_limit;
  replace (offset <? 0)%Z with false by (symmetry; apply Z.ltb_ge; lia);
  replace (limit <? 0)%Z with false by (symmetry; apply Z.ltb_ge; lia);
  cbn [orb fst snd graph]; rewrite count_total; split; reflexivity.

Lemma statementsBySubject_under_run (choose : tie_breaking)
    (identifier : string) :
  forall (limit offset : Z) (w : World),
    (0 <= limit)%Z -> (0 <= offset)%Z ->
    fst (statementsBySubject_under choose identifier limit offset w) =
      Returned
        (make_page offset
           (firstn (Z.to_nat limit)
              (skipn (Z.to_nat offset)
                 (map Backend.row
                    (choose (PageBySubject identifier offset limit)
                       (filter (Backend.has_subject identifier)
                               (statements (graph w)))))))
           (Z.of_nat (length (filter (Backend.has_subject identifier)
                                     (statements (graph w))))))
    /\ graph (snd (statementsBySubject_under choose identifier limit offset w))
       = graph w.
Proof. run_window_under. Qed.

Lemma statementsByPredicate_under_run (choose : tie_breaking)
    (predicate : string) :
  forall (limit offset : Z) (w : World),
    (0 <= limit)%Z -> (0 <= offset)%Z ->
    fst (statementsByPredicate_under choose predicate limit offset w) =
      Returned
        (make_page offset
           (firstn (Z.to_nat limit)
              (skipn (Z.to_nat offset)
                 (map Backend.row
                    (choose (PageByPredicate predicate offset limit)
                       (filter (Backend.has_predicate predicate)
                               (statements (graph w)))))))
           (Z.of_nat (length (filter (Backend.has_predicate predicate)
                                     (statements (graph w))))))
    /\ graph (snd (statementsByPredicate_under choose predicate limit
                     offset w)) = graph w.
Proof. run_window_under. Qed.

Lemma paginatedStatements_under_run (choose : tie_breaking) :
  forall (limit offset : Z) (w : World),
    (0 <= limit)%Z -> (0 <= offset)%Z ->
    fst (paginatedStatements_under choose limit offset w) =
      Returned
        (make_page offset
           (firstn (Z.to_nat limit)
              (skipn (Z.to_nat offset)
                 (map Backend.row
                    (choose (PageAll offset limit) (statements (graph w))))))
           (Z.of_nat (length (statements (graph w)))))
    /\ graph (snd (paginatedStatements_under choose limit offset w))
       = graph w.
Proof. run_window_under. Qed.

(** Against the backend that keeps the order of the store these are the
    resolvers [statementsBySubject], [statementsByPredicate] and
    [paginatedStatements]. *)
Lemma under_stable (name : string) (limit offset : Z) (w : World) :
  statementsBySubject_under stable name limit offset w
    = statementsBySubject name limit offset w
  /\ statementsByPredicate_under stable name limit offset w
     = statementsByPredicate name limit offset w
  /\ paginatedStatements_under stable limit offset w
     = paginatedStatements limit offset w.
Proof. repeat split. Qed.

Lemma windows_partition (resolve : Z -> Z -> M StatementPage)
    (rows : list Statement) (limit : Z) (w : World) :
  (0 < limit)%Z ->
  (forall i w0, graph w0 = graph w ->
     fst (resolve limit (Z.of_nat i * limit)%Z w0) =
       Returned
         (make_page (Z.of_nat i * limit)
            (firstn (Z.to_nat limit)
               (skipn (Z.to_nat (Z.of_nat i * limit))
                  (map Backend.row (Backend.order_desc rows))))
            (Z.of_nat (length rows)))
     /\ graph (snd (resolve limit (Z.of_nat i * limit)%Z w0)) = graph w) ->
  pages_partition resolve rows limit w.
Proof.
  intros Hlimit Hrun. unfold pages_partition.
  set (width := Z.to_nat limit) in *.
  set (last := (length rows - 1) / width).
  assert (Hw : 0 < width) by (unfold width; lia).
  assert (Hfull : length (map view (Backend.order_desc rows)) = length rows).
  { rewrite length_map. symmetry.
    apply Permutation_length, order_desc_perm. }
  exists (map (fun i =>
                 make_page (Z.of_nat i * limit)
                   (firstn width
                      (skipn (i * width)
                         (map Backend.row (Backend.order_desc rows))))
                   (Z.of_nat (length rows)))
              (seq 0 (S last))).
  split; [now rewrite length_map, length_seq|].
  split; [|split; [|split; [|split]]].
  - intros i p E w0 Hg.
    apply nth_error_map_seq in E as (_ & ->).
    destruct (Hrun i w0 Hg) as (E1 & E2).
    rewrite E1, E2.
    replace (Z.to_nat (Z.of_nat i * limit)) with (i * width)
      by (unfold width; rewrite Z2Nat.inj_mul, Nat2Z.id by lia; reflexivity).
    split; reflexivity.
  - rewrite map_map. unfold make_page at 1. cbn [p_statements].
    erewrite map_ext by (intros i; apply map_format_window).
    rewrite concat_windows.
    apply firstn_all2. rewrite Hfull. now apply last_page_covers.
  - intros i p E. apply nth_error_map_seq in E as (Hi & ->).
    unfold make_page. cbn [p_totalCount p_hasMore].
    split; [reflexivity|].
    rewrite map_format_window.
    rewrite length_firstn, length_skipn, Hfull.
    assert (Hi' : i <= last) by lia.
    pose proof (more_before_last (length rows) width i Hw Hi') as M.
    change ((length rows - 1) / width) with last in M.
    replace limit with (Z.of_nat width) by (unfold width; lia).
    rewrite Z.ltb_ge. split.
    + intros L. destruct (Nat.eq_dec i last) as [e|n]; [exact e|].
      apply M in n. lia.
    + intros -> . destruct (Nat.lt_ge_cases
        (last * width + Nat.min width (length rows - last * width))
        (length rows)) as [L|L]; [|lia].
      apply M in L. contradiction.
  - apply Permutation_map, order_desc_perm.
  - apply order_desc_sorted.
Qed.

(** Claim C6, as the code has it. Let the backend order rows of equal
    [created_at] as it likes, query by query. For a limit of one or more,
    on a store that stays as it is and whose statements of the subject have
    pairwise different [created_at], the pages [statementsBySubject]
    returns at the offsets 0, limit, 2*limit, up to the last one put
    together are the matching statements in descending order of
    [created_at], each once; every page reports their number as
    [totalCount]; and [hasMore] is false on the last of these pages and on
    no earlier one. *)
Theorem statementsBySubject_pages_partition
    (choose : tie_breaking) (identifier : string) (limit : Z) (w : World) :
  fair choose ->
  (0 < limit)%Z ->
  NoDup (map st_created_at
             (filter (Backend.has_subject identifier)
                     (statements (graph w)))) ->
  pages_partition (statementsBySubject_under choose identifier)
    (filter (Backend.has_subject identifier) (statements (graph w)))
    limit w.
Proof.
  intros F Hl N. apply windows_partition; [exact Hl|].
  intros i w0 Hg.
  destruct (statementsBySubject_under_run choose identifier limit
              (Z.of_nat i * limit)%Z w0) as (E1 & E2); [lia | lia |].
  rewrite E1, E2, Hg.
  rewrite (newest_first_unique _ _ N (F _ _)).
  split; reflexivity.
Qed.

Lemma dated_is_dated :
  NoDup (map st_created_at (statements (graph dated))).
Proof. vm_compute. repeat constructor; simpl; intuition discriminate. Qed.

Lemma statementsBySubject_pages_partition_witness :
  pages_partition (statementsBySubject_under turning "alice")
    (filter (Backend.has_subject "alice") (statements (graph dated)))
    1 dated.
Proof.
  apply (statementsBySubject_pages_partition turning "alice" 1 dated).
  - exact turning_fair.
  - reflexivity.
  - vm_compute. repeat constructor; simpl; intuition discriminate.
Defined.

(** Claim C6 fails as stated. The three statements of the subject [a] in
    the store of one ingested batch share their [created_at]; a backend
    that orders them one way for the first page of two and the other way
    for the second page answers every [ORDER BY] by the rule, and the two
    pages then hold the first statement twice and the last one never. With
    the limit 0 every offset is 0 and every page is empty with [hasMore]
    true. *)
Lemma statementsBySubject_ties_counterexample :
  fair turning
  /\ map st_id (filter (Backend.has_subject "a")
                       (statements (graph Sample.busy))) =
     [Sample.uuids 0; Sample.uuids 2; Sample.uuids 3]
  /\ page_ids (fst (statementsBySubject_under turning "a" 2 0 Sample.busy)) =
     [Some (JStr (Sample.uuids 0)); Some (JStr (Sample.uuids 2))]
  /\ page_ids (fst (statementsBySubject_under turning "a" 2 2 Sample.busy)) =
     [Some (JStr (Sample.uuids 0))]
  /\ fst (statementsBySubject "a" 0 0 Sample.busy) = Returned (mkPage [] 3 true)
  /\ fst (statementsBySubject_under turning "a" 0 0 Sample.busy)
     = Returned (mkPage [] 3 true).
Proof.
  split; [exact turning_fair|]. repeat split; vm_compute; reflexivity.
Qed.

(** Whatever order the backend gives to rows of equal [created_at]: for a
    limit of one or more, on a store that stays as it is and whose
    statements have pairwise different [created_at], the pages of
    [paginatedStatements] at the offsets 0, limit, 2*limit, up to the last
    one put together are all the statements of the store, newest first,
    each once; [hasMore] is false on the last page only. *)
Theorem paginatedStatements_pages_partition
    (choose : tie_breaking) (limit : Z) (w : World) :
  fair choose ->
  (0 < limit)%Z ->
  NoDup (map st_created_at (statements (graph w))) ->
  pages_partition (paginatedStatements_under choose)
                  (statements (graph w)) limit w.
Proof.
  intros F Hl N. apply windows_partition; [exact Hl|].
  intros i w0 Hg.
  destruct (paginatedStatements_under_run choose limit
              (Z.of_nat i * limit)%Z w0) as (E1 & E2); [lia | lia |].
  rewrite E1, E2, Hg.
  rewrite (newest_first_unique _ _ N (F _ _)).
  split; reflexivity.
Qed.

Lemma paginatedStatements_pages_partition_witness :
  pages_partition (paginatedStatements_under turning)
                  (statements (graph dated)) 2 dated.
Proof.
  apply (paginatedStatements_pages_partition turning 2 dated).
  - exact turning_fair.
  - reflexivity.
  - vm_compute. repeat constructor; simpl; intuition discriminate.
Defined.

(** The same for [statementsByPredicate] and the statements that have the
    predicate, when these have pairwise different [created_at]. *)
Theorem statementsByPredicate_pages_partition
    (choose : tie_breaking) (predicate : string) (limit : Z) (w : World) :
  fair choose ->
  (0 < limit)%Z ->
  NoDup (map st_created_at
             (filter (Backend.has_predicate predicate)
                     (statements (graph w)))) ->
  pages_partition (statementsByPredicate_under choose predicate)
    (filter (Backend.has_predicate predicate) (statements (graph w)))
    limit w.
Proof.
  intros F Hl N. apply windows_partition; [exact Hl|].
  intros i w0 Hg.
  destruct (statementsByPredicate_under_run choose predicate limit
              (Z.of_nat i * limit)%Z w0) as (E1 & E2); [lia | lia |].
  rewrite E1, E2, Hg.
  rewrite (newest_first_unique _ _ N (F _ _)).
  split; reflexivity.
Qed.

Lemma statementsByPredicate_pages_partition_witness :
  pages_partition (statementsByPredicate_under turning "knows")
    (filter (Backend.has_predicate "knows") (statements (graph dated)))
    1 dated.
Proof.
  apply (statementsByPredicate_pages_partition turning "knows" 1 dated).
  - exact turning_fair.
  - reflexivity.
  - vm_compute. repeat constructor; simpl; intuition discriminate.
Defined.

Lemma window_size (resolve : Z -> Z -> M StatementPage)
    (matching : Graph -> list Statement) (limit offset : Z) (w : World) :
  runs_as_window resolve matching ->
  (0 <= limit)%Z -> (0 <= offset)%Z ->
  exists p : StatementPage,
    fst (resolve limit offset w) = Returned p
    /\ page_of_size p (length (matching (graph w))) limit offset.
Proof.
  intros Hrun Hl Ho. destruct (Hrun limit offset w Hl Ho) as (E & _).
  eexists. split; [exact E|].
  unfold page_of_size, make_page. cbn [p_totalCount p_statements p_hasMore].
  rewrite length_map, length_firstn, length_skipn, length_map.
  rewrite <- (Permutation_length (order_desc_perm (matching (graph w)))).
  split; [reflexivity|]. split; [lia|].
  destruct (Z.ltb_spec (offset + limit) (Z.of_nat (length (matching (graph w)))));
    [apply Z.ltb_lt | apply Z.ltb_ge]; lia.
Qed.

(** On bounds that are not negative each of the three paginated resolvers
    returns a page that reports the number of matching statements, holds
    min(limit, what is left after the offset) of them, and has [hasMore]
    exactly when the offset plus the limit stays below that number: an
    offset at or past the end gives the empty page with [hasMore] false. *)
Theorem paginated_resolvers_page_size
    (name : string) (limit offset : Z) (w : World) :
  (0 <= limit)%Z -> (0 <= offset)%Z ->
  (exists p, fst (statementsBySubject name limit offset w) = Returned p
     /\ page_of_size p
          (length (filter (Backend.has_subject name) (statements (graph w))))
          limit offset)
  /\ (exists p, fst (statementsByPredicate name limit offset w) = Returned p
        /\ page_of_size p
             (length (filter (Backend.has_predicate name)
                             (statements (graph w))))
             limit offset)
  /\ (exists p, fst (paginatedStatements limit offset w) = Returned p
        /\ page_of_size p (length (statements (graph w))) limit offset).
Proof.
  intros Hl Ho. split; [|split].
  - exact (window_size _ _ limit offset w
             (statementsBySubject_window name) Hl Ho).
  - exact (window_size _ _ limit offset w
             (statementsByPredicate_window name) Hl Ho).
  - exact (window_size _ _ limit offset w paginatedStatements_window Hl Ho).
Qed.

Lemma paginated_resolvers_page_size_witness :
  exists p, fst (statementsBySubject "a" 2 5 Sample.busy) = Returned p
    /\ page_of_size p 3 2 5.
Proof.
  destruct (paginated_resolvers_page_size "a" 2 5 Sample.busy)
    as (H & _); [lia | lia | exact H].
Defined.

(* ================================================================== *)
(** ** Reading changes nothing *)

Ltac read_only :=
  unfold untouched, statementsBySubject, statementsByPredicate,
         paginatedStatements, searchStatements, statement, subjects,
         api_subjects, api_data, bind, session_run, ret;
  cbn [Backend.execute graph uuid_source uuid_drawn clock clock_reads
       backend_calls];
  repeat match goal with
         | |- context [Backend.skip_limit ?o ?l ?r] =>
             destruct (Backend.skip_limit o l r)
         end;
  repeat split.

(** No read resolver and no route changes the graph, draws an identifier or
    reads the clock, whatever its arguments and also when it throws. *)
Theorem reads_leave_the_store_untouched
    (name : string) (q : option string) (limit offset : Z) (w : World) :
  untouched w (snd (statement name w))
  /\ untouched w (snd (searchStatements name w))
  /\ untouched w (snd (statementsBySubject name limit offset w))
  /\ untouched w (snd (statementsByPredicate name limit offset w))
  /\ untouched w (snd (paginatedStatements limit offset w))
  /\ untouched w (snd (subjects w))
  /\ untouched w (snd (api_search q w))
  /\ untouched w (snd (api_subjects w))
  /\ untouched w (snd (api_data w)).
Proof.
  repeat match goal with |- _ /\ _ => split end; try solve [read_only].
  destruct q as [[|c s]|]; unfold untouched; repeat split.
Qed.

(* ================================================================== *)
(** ** [statement] by [id] *)

(** [statement] never throws. It is absent exactly when no stored
    statement has the [id]; what it returns otherwise is the view of a
    stored statement with that [id], the first in the store. *)
Theorem statement_finds_by_id (id : string) (w : World) :
  (exists r, fst (statement id w) = Returned r)
  /\ (fst (statement id w) = Returned None <->
      forall e, In e (statements (graph w)) -> st_id e <> id)
  /\ (forall v, fst (statement id w) = Returned (Some v) ->
        exists e before rest,
          statements (graph w) = (before ++ e :: rest)%list
          /\ (forall x, In x before -> st_id x <> id)
          /\ st_id e = id
          /\ v = view e
          /\ v_id v = Some (JStr id)).
Proof.
  rewrite statement_run. cbn [fst].
  split; [eexists; reflexivity|].
  induction (statements (graph w)) as [|x l IH]; simpl.
  - split; [split; [intros _ e [] | reflexivity]|]. intros v [=].
  - destruct (Backend.has_id id x) eqn:E.
    + apply has_id_true in E. split.
      * split; [intros [=] | intros H; exfalso; apply (H x); auto].
      * intros v [= <-]. exists x, [], l. simpl.
        repeat split; [intros y [] | exact E | now rewrite <- E].
    + assert (N : st_id x <> id).
      { intros H. apply has_id_true in H. congruence. }
      destruct IH as (IH1 & IH2). split.
      * rewrite IH1. split.
        -- intros H e [<-|He]; [exact N | now apply H].
        -- intros H e He. apply H. now right.
      * intros v Hv. destruct (IH2 v Hv) as (e & b & r & -> & Hb & He & Hr).
        exists e, (x :: b), r. simpl. repeat split; try tauto.
        intros y [<-|Hy]; [exact N | now apply Hb].
Qed.

(* ================================================================== *)
(** ** What sequences of mutations keep *)

Lemma string_of_nat_inj (n m : nat) :
  Js.string_of_nat n = Js.string_of_nat m -> n = m.
Proof.
  unfold Js.string_of_nat. intros E.
  assert (nonnil : forall k, Nat.to_uint k <> Decimal.Nil).
  { intros k H.
    pose proof (DecimalNat.Unsigned.of_to k) as O. rewrite H in O.
    simpl in O. subst k. discriminate. }
  apply DecimalNat.Unsigned.to_uint_inj.
  pose proof (NilZero.usu _ (nonnil n)) as Hn.
  pose proof (NilZero.usu _ (nonnil m)) as Hm.
  rewrite E in Hn. congruence.
Qed.

Lemma sample_uuids_inj (n m : nat) : Sample.uuids n = Sample.uuids m -> n = m.
Proof.
  unfold Sample.uuids. cbn [append]. intros [= E].
  now apply string_of_nat_inj.
Qed.

Lemma fresh_consistent : consistent Sample.fresh.
Proof.
  repeat split.
  - constructor.
  - constructor.
  - intros i j _ _. apply sample_uuids_inj.
  - intros e k [].
  - destruct H.
  - destruct H.
  - destruct H.
Qed.

Lemma ids_of_ingested (sourceName now : string) (uuid : nat -> string)
    (ts : list (string * string * string)) (k : nat) :
  map st_id (ingested sourceName now uuid k ts) =
  map uuid (seq k (length ts)).
Proof.
  revert k. induction ts as [|t ts IH]; intros k; simpl; [reflexivity|].
  now rewrite IH.
Qed.

(** Statements added under the next draws keep a consistent world. *)
Lemma grow_consistent (w w' : World) (news : list Statement) (n : nat) :
  consistent w ->
  uuid_source w' = uuid_source w ->
  uuid_drawn w' = uuid_drawn w + n ->
  statements (graph w') = (statements (graph w) ++ news)%list ->
  map st_id news = map (uuid_source w) (seq (uuid_drawn w) n) ->
  unique_identifiers (graph w') ->
  incl (identifiers (graph w)) (identifiers (graph w')) ->
  (forall e, In e news ->
     In (st_subject e) (identifiers (graph w'))
     /\ In (st_object e) (identifiers (graph w'))
     /\ st_object e = st_object_value e) ->
  consistent w'.
Proof.
  intros (U & I & (Finj & Fold) & A) Hs Hd Hst Hids Hu Hincl Hnew.
  assert (Hnew_id : forall e, In e news ->
            exists k, uuid_drawn w <= k < uuid_drawn w + n
                      /\ st_id e = uuid_source w k).
  { intros e He. apply (in_map st_id) in He. rewrite Hids in He.
    apply in_map_iff in He as (k & E & Hk). apply in_seq in Hk.
    exists k. split; [lia | congruence]. }
  split; [exact Hu|]. split; [|split].
  - unfold unique_ids. rewrite Hst, map_app. apply NoDup_app.
    + exact I.
    + rewrite Hids. apply NoDup_map_NoDup_ForallPairs; [|apply seq_NoDup].
      intros i j Hi Hj. apply in_seq in Hi, Hj. apply Finj; lia.
    + intros x Hold Hx. apply in_map_iff in Hold as (e & <- & He).
      rewrite Hids in Hx. apply in_map_iff in Hx as (k & E & Hk).
      apply in_seq in Hk. apply (Fold e k He); [lia | congruence].
  - split.
    + rewrite Hs, Hd. intros i j Hi Hj. apply Finj; lia.
    + rewrite Hs, Hd, Hst. intros e k He Hk.
      apply in_app_or in He as [He|He].
      * apply (Fold e k He). lia.
      * destruct (Hnew_id e He) as (j & Hj & ->).
        intros E. apply Finj in E; lia.
  - intros e He. rewrite Hst in He. apply in_app_or in He as [He|He].
    + destruct (A e He) as (A1 & A2 & A3).
      split; [now apply Hincl | split; [now apply Hincl | exact A3]].
    + now apply Hnew.
Qed.

Lemma set_add_incl (v : string) (l : list string) : incl l (Js.set_add v l).
Proof. intros x Hx. apply set_add_In. now right. Qed.

Lemma act_consistent (a : Action) (w : World) :
  consistent w ->
  fst (act a w) = Returned tt
  /\ consistent (snd (act a w))
  /\ incl (identifiers (graph w)) (identifiers (graph (snd (act a w)))).
Proof.
  intros C. pose proof C as (U & I & F & A).
  destruct a as [[input | data sourceName] | id]; cbn [act perform].
  - unfold bind. rewrite (createStatement_run input w U). cbn [fst snd ret].
    split; [reflexivity|].
    assert (Hincl : incl (identifiers (graph w))
                         (identifiers (graph (world_after_create input w)))).
    { intros x Hx. cbn. now apply set_add_incl, set_add_incl. }
    split; [|exact Hincl].
    apply (grow_consistent w _
             [stored_statement input (uuid_source w (uuid_drawn w))
                               (clock w (clock_reads w))] 1 C);
      try reflexivity.
    + cbn. now rewrite Nat.add_1_r.
    + now apply world_after_create_unique.
    + exact Hincl.
    + intros e [<-|[]]. cbn. rewrite !set_add_In. tauto.
  - unfold bind. rewrite (ingest_run data sourceName w U). cbn [fst snd ret].
    split; [reflexivity|].
    set (ts := accepted (ingest_lines data)).
    assert (Hincl : forall x, In x (identifiers (graph w)) ->
                              In x (merged_nodes ts (identifiers (graph w)))).
    { intros x Hx. apply merged_nodes_In. now left. }
    split; [|exact Hincl].
    apply (grow_consistent w _
             (ingested sourceName (clock w (clock_reads w)) (uuid_source w)
                       (uuid_drawn w) ts) (length ts) C);
      try reflexivity.
    + apply ids_of_ingested.
    + apply (world_after_lines_unique sourceName (clock w (clock_reads w)) ts
               (mkWorld (graph w) (uuid_source w) (uuid_drawn w) (clock w)
                        (S (clock_reads w)) (backend_calls w))). exact U.
    + exact Hincl.
    + intros e He. cbn [world_after_lines graph identifiers].
      rewrite !merged_nodes_In.
      assert (exists t k, In t ts /\
                e = ingested_statement sourceName (clock w (clock_reads w))
                                       k t) as (t & k & Ht & ->).
      { clear -He. revert He. generalize (uuid_drawn w) as d.
        induction ts as [|t ts IH]; intros d He; [destruct He|].
        destruct He as [E|H].
        - exists t, (uuid_source w d). split; [now left | now rewrite E].
        - destruct (IH _ H) as (t' & k & Ht & E).
          exists t', k. split; [now right | exact E]. }
      cbn. repeat split; right; apply in_flat_map; exists t;
        (split; [exact Ht | simpl; tauto]).
  - unfold bind. rewrite deleteStatement_run. cbn [fst snd ret].
    split; [reflexivity|]. split; [|intros x Hx; exact Hx].
    destruct F as (Finj & Fold).
    split; [exact U|]. split; [|split; [split|]].
    + unfold unique_ids. cbn [graph statements].
      unfold unique_ids in I. clear -I.
      induction (statements (graph w)) as [|x l IH]; simpl; [constructor|].
      inversion I as [|? ? Hx Hl]; subst.
      destruct (negb (Backend.has_id id x)); [|now apply IH].
      simpl. constructor; [|now apply IH].
      intros H. apply Hx. apply in_map_iff in H as (e & E & He).
      apply in_map_iff. exists e. split; [exact E|].
      now apply filter_In in He.
    + exact Finj.
    + cbn [graph statements uuid_source uuid_drawn]. intros e k He.
      apply filter_In in He as (He & _). now apply Fold.
    + intros e He. cbn [graph statements identifiers] in *.
      apply filter_In in He as (He & _). now apply A.
Qed.

Lemma act_all_consistent (actions : list Action) :
  forall w : World,
    consistent w ->
    fst (act_all actions w) = Returned tt
    /\ consistent (snd (act_all actions w))
    /\ incl (identifiers (graph w))
            (identifiers (graph (snd (act_all actions w)))).
Proof.
  induction actions as [|a actions IH]; intros w C.
  - simpl. split; [reflexivity|]. split; [exact C|]. intros x Hx. exact Hx.
  - destruct (act_consistent a w C) as (E & C1 & I1).
    cbn [act_all]. unfold bind.
    destruct (act a w) as [[[]|err] w1]; [|discriminate].
    cbn [fst snd] in *.
    destruct (IH w1 C1) as (E' & C' & I').
    split; [exact E'|]. split; [exact C'|].
    intros x Hx. now apply I', I1.
Qed.

Lemma filter_has_id_unique (e : Statement) (l : list Statement) :
  NoDup (map st_id l) -> In e l ->
  filter (Backend.has_id (st_id e)) l = [e].
Proof.
  induction l as [|x l IH]; intros N H; [destruct H|].
  simpl in N. inversion N as [|? ? Hx Hl]; subst.
  simpl. destruct H as [->|H].
  - unfold Backend.has_id at 1. rewrite String.eqb_refl.
    rewrite filter_has_id_unused; [reflexivity|].
    intros y Hy E. apply Hx. rewrite <- E. now apply in_map.
  - destruct (Backend.has_id (st_id e) x) eqn:E.
    + apply has_id_true in E. exfalso. apply Hx. rewrite E.
      now apply in_map.
    + now apply IH.
Qed.

(** From a consistent store (the empty one is) every sequence of
    [createStatement], [ingest] and [deleteStatement] calls succeeds and
    leaves statements with pairwise different [id]s, so that [statement]
    of the [id] of a stored statement returns that very statement. *)
Theorem statement_ids_stay_unique (actions : list Action) (w : World) :
  consistent w ->
  fst (act_all actions w) = Returned tt
  /\ unique_ids (graph (snd (act_all actions w)))
  /\ (forall e, In e (statements (graph (snd (act_all actions w)))) ->
        fst (statement (st_id e) (snd (act_all actions w)))
          = Returned (Some (view e))).
Proof.
  intros C. destruct (act_all_consistent actions w C) as (E & (_ & I & _) & _).
  split; [exact E|]. split; [exact I|].
  intros e He. rewrite statement_run. cbn [fst].
  now rewrite (filter_has_id_unique e _ I He).
Qed.

Lemma statement_ids_stay_unique_witness :
  unique_ids
    (graph (snd (act_all [Mutate (Create Sample.alice_knows_bob);
                          Mutate (Ingest Sample.three_lines "feed");
                          Delete (Sample.uuids 1);
                          Mutate (Create Sample.alice_knows_bob)]
                         Sample.fresh))).
Proof.
  apply (statement_ids_stay_unique
           [Mutate (Create Sample.alice_knows_bob);
            Mutate (Ingest Sample.three_lines "feed");
            Delete (Sample.uuids 1);
            Mutate (Create Sample.alice_knows_bob)] Sample.fresh).
  exact fresh_consistent.
Defined.

(** From a consistent store every sequence of the three mutations keeps
    at most one [Identifier] node per value, keeps both ends of every
    statement among the nodes with the object node carrying the
    [object_value], and removes no node: a deletion leaves the nodes of the
    deleted statement behind. *)
Theorem graph_stays_attached (actions : list Action) (w : World) :
  consistent w ->
  unique_identifiers (graph (snd (act_all actions w)))
  /\ attached (graph (snd (act_all actions w)))
  /\ incl (identifiers (graph w))
          (identifiers (graph (snd (act_all actions w)))).
Proof.
  intros C.
  destruct (act_all_consistent actions w C) as (_ & (U & _ & _ & A) & I).
  split; [exact U|]. split; [exact A | exact I].
Qed.

Lemma graph_stays_attached_witness :
  incl (identifiers (graph Sample.fresh))
       (identifiers
          (graph (snd (act_all [Mutate (Ingest Sample.three_lines "feed");
                                Delete (Sample.uuids 0);
                                Delete (Sample.uuids 1)] Sample.fresh)))).
Proof.
  apply (graph_stays_attached
           [Mutate (Ingest Sample.three_lines "feed");
            Delete (Sample.uuids 0); Delete (Sample.uuids 1)] Sample.fresh).
  exact fresh_consistent.
Defined.

(** Deleting every statement leaves the nodes: identifiers are never
    collected. *)
Example orphans_stay :
  let w := snd (act_all [Mutate (Ingest Sample.three_lines "feed");
                         Delete (Sample.uuids 0);
                         Delete (Sample.uuids 1)] Sample.fresh) in
  statements (graph w) = [] /\ identifiers (graph w) = ["a"; "b"; "c"; "d"].
Proof. split; reflexivity. Qed.

(* ================================================================== *)
(** ** Creating, then reading or deleting *)

Lemma filter_not_id_unused (id : string) (l : list Statement) :
  (forall e, In e l -> st_id e <> id) ->
  filter (fun e => negb (Backend.has_id id e)) l = l.
Proof.
  induction l as [|x l IH]; intros H; simpl; [reflexivity|].
  destruct (Backend.has_id id x) eqn:E.
  - apply has_id_true in E. exfalso. apply (H x); [now left | exact E].
  - simpl. f_equal. apply IH. intros e He. apply H. now right.
Qed.

(** On a store with unique identifiers where the drawn [id] is not in use,
    deleting the statement just created reports success, brings the list
    of statements back to what it was, and leaves the two nodes that the
    creation merged. *)
Theorem create_then_delete_restores_statements
    (input : StatementInput) (w : World) :
  unique_identifiers (graph w) ->
  next_uuid_unused w ->
  let id := uuid_source w (uuid_drawn w) in
  let w1 := snd (createStatement input w) in
  let w2 := snd (deleteStatement id w1) in
  (exists v, fst (createStatement input w) = Returned v
             /\ v_id v = Some (JStr id))
  /\ fst (deleteStatement id w1) =
       Returned (mkDeleteResult true "Statement deleted" id)
  /\ statements (graph w2) = statements (graph w)
  /\ In (subject_identifier input) (identifiers (graph w2))
  /\ In (Json.stringify (object_value input)) (identifiers (graph w2)).
Proof.
  intros U F id w1 w2. subst w2 w1 id.
  rewrite (createStatement_run input w U). cbn [fst snd].
  split; [eexists; split; reflexivity|].
  rewrite deleteStatement_run. cbn [fst snd graph statements identifiers
                                    world_after_create].
  rewrite !filter_app, (filter_has_id_unused _ _ F),
          (filter_not_id_unused _ _ F).
  cbn [filter app]. unfold Backend.has_id. cbn [st_id stored_statement].
  rewrite String.eqb_refl. cbn [negb app length Z.of_nat].
  rewrite app_nil_r.
  split; [reflexivity|]. split; [reflexivity|].
  cbn [st_subject st_object]. rewrite !set_add_In. tauto.
Qed.

Lemma create_then_delete_restores_statements_witness :
  statements
    (graph (snd (deleteStatement (Sample.uuids 2)
                   (snd (createStatement Sample.alice_knows_bob
                                         Sample.fed))))) =
  statements (graph Sample.fed).
Proof.
  destruct (create_then_delete_restores_statements
              Sample.alice_knows_bob Sample.fed) as (_ & _ & H & _).
  - repeat constructor; simpl; intuition discriminate.
  - intros e [<-|[<-|[]]]; discriminate.
  - exact H.
Defined.

(** On a store with unique identifiers where the drawn [id] is not in use,
    the object [createStatement] returns and the record read back under
    its [id] agree on every field but [object_value]: [id], subject,
    predicate, [source_id], both time stamps. [created_at] is the reading
    of the clock, and so is [statement_timestamp] when the input has none
    or an empty one; a non-empty one is kept. *)
Theorem createStatement_result_matches_read_back
    (input : StatementInput) (w : World) :
  unique_identifiers (graph w) ->
  next_uuid_unused w ->
  exists created read : StatementView,
    fst (createStatement input w) = Returned created
    /\ fst (statement (uuid_source w (uuid_drawn w))
              (snd (createStatement input w))) = Returned (Some read)
    /\ v_id read = v_id created
    /\ v_subject_identifier read = v_subject_identifier created
    /\ v_predicate read = v_predicate created
    /\ v_source_id read = v_source_id created
    /\ v_statement_timestamp read = v_statement_timestamp created
    /\ v_created_at read = v_created_at created
    /\ v_created_at created = Some (JStr (clock w (clock_reads w)))
    /\ (Js.truthy_field (statement_timestamp input) = false ->
        v_statement_timestamp created = v_created_at created)
    /\ (forall s, statement_timestamp input = Some s -> s <> EmptyString ->
        v_statement_timestamp created = Some (JStr s)).
Proof.
  intros U F. rewrite (createStatement_run input w U). cbn [fst snd].
  rewrite statement_run. cbn [fst world_after_create graph statements].
  rewrite filter_app, (filter_has_id_unused _ _ F).
  cbn [filter app]. unfold Backend.has_id. cbn [st_id stored_statement].
  rewrite String.eqb_refl.
  eexists _, _. split; [reflexivity|]. split; [reflexivity|].
  cbn [v_id v_subject_identifier v_predicate v_source_id
       v_statement_timestamp v_created_at view formatStatement].
  destruct input as [sub pr ov src ts].
  cbn [source_id statement_timestamp].
  repeat split.
  - destruct src as [[|c s]|]; reflexivity.
  - destruct ts as [[|c s]|]; (reflexivity || discriminate).
  - intros s -> Hs. destruct s; [contradiction | reflexivity].
Qed.

Lemma createStatement_result_matches_read_back_witness :
  exists created read : StatementView,
    fst (createStatement Sample.alice_knows_bob Sample.fed) = Returned created
    /\ fst (statement (Sample.uuids 2)
              (snd (createStatement Sample.alice_knows_bob Sample.fed)))
       = Returned (Some read)
    /\ v_id read = v_id created
    /\ v_source_id read = v_source_id created
    /\ v_statement_timestamp read = v_created_at created.
Proof.
  destruct (createStatement_result_matches_read_back
              Sample.alice_knows_bob Sample.fed)
    as (created & read & E1 & E2 & H1 & _ & _ & H4 & H5 & _ & _ & H8 & _).
  - repeat constructor; simpl; intuition discriminate.
  - intros e [<-|[<-|[]]]; discriminate.
  - exists created, read. repeat split; try assumption.
    rewrite H5. apply H8. reflexivity.
Defined.

(* ================================================================== *)
(** ** Search and letter case *)

Lemma lower_char_idempotent (c : ascii) :
  Cypher.lower_char (Cypher.lower_char c) = Cypher.lower_char c.
Proof. destruct c as [[] [] [] [] [] [] [] []]; reflexivity. Qed.

Lemma toLower_idempotent (s : string) :
  Cypher.toLower (Cypher.toLower s) = Cypher.toLower s.
Proof.
  induction s as [|c s IH]; simpl; [reflexivity|].
  now rewrite lower_char_idempotent, IH.
Qed.

(** Two queries with the same lower-case form find the same statements;
    so a query and its lower-case form do. *)
Theorem searchStatements_ignores_case (q q' : string) (w : World) :
  Cypher.toLower q = Cypher.toLower q' ->
  fst (searchStatements q w) = fst (searchStatements q' w)
  /\ fst (searchStatements (Cypher.toLower q) w) = fst (searchStatements q w).
Proof.
  intros E. rewrite !searchStatements_run. cbn [fst].
  assert (same : forall a b, Cypher.toLower a = Cypher.toLower b ->
            filter (Backend.search_match a) (statements (graph w)) =
            filter (Backend.search_match b) (statements (graph w))).
  { intros a b H. apply filter_ext. intros e.
    unfold Backend.search_match. now rewrite H. }
  split.
  - now rewrite (same q q' E).
  - now rewrite (same (Cypher.toLower q) q (toLower_idempotent q)).
Qed.

Lemma searchStatements_ignores_case_witness :
  fst (searchStatements "KNOWS d" Sample.fed)
    = fst (searchStatements "knows D" Sample.fed)
  /\ fst (searchStatements (Cypher.toLower "KNOWS d") Sample.fed)
     = fst (searchStatements "KNOWS d" Sample.fed).
Proof.
  apply (searchStatements_ignores_case "KNOWS d" "knows D" Sample.fed).
  reflexivity.
Defined.

(* ================================================================== *)
(** ** The fields [ingest] stores *)

Lemma trimStart_no_leading_space (s : string) :
  match Js.trimStart s with
  | EmptyString => True
  | String c _ => Js.is_space c = false
  end.
Proof.
  induction s as [|c s IH]; simpl; [exact I|].
  destruct (Js.is_space c) eqn:E; [exact IH | exact E].
Qed.

Lemma trimEnd_keeps_first (c : ascii) (s : string) :
  Js.is_space c = false ->
  exists r, Js.trimEnd (String c s) = String c r.
Proof.
  intros H. simpl. rewrite H.
  destruct (Js.trimEnd s); eexists; reflexivity.
Qed.

Lemma trimEnd_idempotent (s : string) :
  Js.trimEnd (Js.trimEnd s) = Js.trimEnd s.
Proof.
  induction s as [|c s IH]; [reflexivity|].
  simpl. destruct (Js.trimEnd s) as [|d r] eqn:E.
  - destruct (Js.is_space c) eqn:Ec; simpl; [reflexivity | now rewrite Ec].
  - cbn [Js.trimEnd] in *. rewrite IH. reflexivity.
Qed.

Lemma trim_idempotent (s : string) : Js.trim (Js.trim s) = Js.trim s.
Proof.
  unfold Js.trim.
  pose proof (trimStart_no_leading_space s) as H.
  destruct (Js.trimStart s) as [|c t]; [reflexivity|].
  destruct (trimEnd_keeps_first c t H) as (r & E).
  rewrite E. cbn [Js.trimStart]. rewrite H, <- E.
  apply trimEnd_idempotent.
Qed.

Lemma has_char_trimStart (c : ascii) (s : string) :
  has_char c s = false -> has_char c (Js.trimStart s) = false.
Proof.
  induction s as [|d s IH]; simpl; [reflexivity|].
  intros H. apply orb_false_iff in H as (Hd & Hs).
  destruct (Js.is_space d); [now apply IH|].
  simpl. now rewrite Hd, Hs.
Qed.

Lemma has_char_trimEnd (c : ascii) (s : string) :
  has_char c s = false -> has_char c (Js.trimEnd s) = false.
Proof.
  induction s as [|d s IH]; simpl; [reflexivity|].
  intros H. apply orb_false_iff in H as (Hd & Hs).
  specialize (IH Hs).
  destruct (Js.trimEnd s) as [|e r].
  - destruct (Js.is_space d); simpl; [reflexivity|].
    now rewrite Hd.
  - cbn [has_char] in *. now rewrite Hd, IH.
Qed.

Lemma has_char_trim (c : ascii) (s : string) :
  has_char c s = false -> has_char c (Js.trim s) = false.
Proof.
  intros H. now apply has_char_trimEnd, has_char_trimStart.
Qed.

(** A piece of a split has no separator, and no character the whole had
    not. *)
Lemma split_pieces (sep : ascii) (s : string) :
  forall f, In f (Js.split sep s) ->
    has_char sep f = false
    /\ forall c, has_char c s = false -> has_char c f = false.
Proof.
  induction s as [|d s IH]; intros f Hf.
  - destruct Hf as [<-|[]]. split; reflexivity.
  - cbn [Js.split] in Hf. destruct (Ascii.eqb d sep) eqn:E.
    + destruct Hf as [<-|Hf]; [split; reflexivity|].
      destruct (IH f Hf) as (H1 & H2). split; [exact H1|].
      intros c Hc. cbn [has_char] in Hc.
      apply orb_false_iff in Hc as (_ & Hc). now apply H2.
    + destruct (Js.split sep s) as [|h t] eqn:Es.
      * destruct Hf as [<-|[]]. cbn [has_char]. rewrite E.
        split; [reflexivity|]. intros c Hc. cbn [has_char] in Hc.
        apply orb_false_iff in Hc as (Hd & _). now rewrite Hd.
      * destruct Hf as [<-|Hf].
        -- destruct (IH h (or_introl eq_refl)) as (H1 & H2).
           cbn [has_char]. rewrite E, H1. split; [reflexivity|].
           intros c Hc. cbn [has_char] in Hc.
           apply orb_false_iff in Hc as (Hd & Hs).
           now rewrite Hd, (H2 c Hs).
        -- destruct (IH f (or_intror Hf)) as (H1 & H2).
           split; [exact H1|]. intros c Hc. cbn [has_char] in Hc.
           apply orb_false_iff in Hc as (_ & Hs). now apply H2.
Qed.

Lemma three_fields_clean (line s p o : string) :
  has_char (ascii_of_nat 10) line = false ->
  three_fields line = Some (s, p, o) ->
  clean_field s /\ clean_field p /\ clean_field o.
Proof.
  intros Hnl H. apply three_fields_Some in H as (rest & E & Hs & Hp & Ho).
  assert (piece : forall x, In x (map Js.trim (Js.split "," line)) ->
            x <> EmptyString -> clean_field x).
  { intros x Hx Hne. apply in_map_iff in Hx as (f & <- & Hf).
    destruct (split_pieces "," line f Hf) as (H1 & H2).
    split; [exact Hne|]. split; [apply trim_idempotent|].
    split; apply has_char_trim; [exact H1 | now apply H2]. }
  rewrite E in piece.
  repeat split; apply piece; simpl; tauto.
Qed.

Lemma accepted_clean (lines : list string) :
  (forall l, In l lines -> has_char (ascii_of_nat 10) l = false) ->
  forall t, In t (accepted lines) ->
    clean_field (subject_of t) /\ clean_field (predicate_of t)
    /\ clean_field (object_of t).
Proof.
  induction lines as [|l lines IH]; intros H t Ht; [destruct Ht|].
  cbn [accepted] in Ht.
  assert (IH' := IH (fun x Hx => H x (or_intror Hx)) t).
  destruct (three_fields l) as [[[s p] o]|] eqn:E; [|now apply IH'].
  destruct Ht as [<-|Ht]; [|now apply IH'].
  apply (three_fields_clean l s p o); [apply H; now left | exact E].
Qed.

Lemma ingest_lines_no_newline (data l : string) :
  In l (ingest_lines data) -> has_char (ascii_of_nat 10) l = false.
Proof.
  unfold ingest_lines. intros H. apply filter_In in H as (H & _).
  exact (proj1 (split_pieces (ascii_of_nat 10) data l H)).
Qed.

Lemma In_ingested (sourceName now : string) (uuid : nat -> string)
    (ts : list (string * string * string)) :
  forall k e, In e (ingested sourceName now uuid k ts) ->
    exists t id, In t ts /\ e = ingested_statement sourceName now id t.
Proof.
  induction ts as [|t ts IH]; intros k e He; [destruct He|].
  destruct He as [E|H].
  - exists t, (uuid k). split; [now left | now rewrite E].
  - destruct (IH _ _ H) as (t' & id & Ht & E).
    exists t', id. split; [now right | exact E].
Qed.

(** On a store with unique identifiers, every statement [ingest] adds has
    a subject, a predicate and an [object_value] that are not empty, have
    no white space around them and hold neither a comma nor a line feed;
    its object node carries the [object_value], its [source_id] is the
    source name and its two time stamps are equal. *)
Theorem ingest_stores_clean_fields
    (data sourceName : string) (w : World) :
  unique_identifiers (graph w) ->
  forall e, In e (statements (graph (snd (ingest data sourceName w)))) ->
    In e (statements (graph w))
    \/ (clean_field (st_subject e)
        /\ clean_field (st_predicate e)
        /\ clean_field (st_object_value e)
        /\ st_object e = st_object_value e
        /\ st_source_id e = Some sourceName
        /\ st_timestamp e = st_created_at e).
Proof.
  intros U e He. rewrite (ingest_run data sourceName w U) in He.
  cbn [snd world_after_lines graph statements] in He.
  apply in_app_or in He as [He|He]; [now left | right].
  apply In_ingested in He as (t & id & Ht & ->).
  destruct (accepted_clean (ingest_lines data)
              (ingest_lines_no_newline data) t Ht) as (Hs & Hp & Ho).
  cbn [st_subject st_predicate st_object_value st_object st_source_id
       st_timestamp st_created_at ingested_statement].
  split; [exact Hs|]. split; [exact Hp|]. split; [exact Ho|].
  repeat split.
Qed.

Lemma ingest_stores_clean_fields_witness :
  clean_field "c" /\ clean_field "knows" /\ clean_field "d".
Proof.
  destruct (ingest_stores_clean_fields Sample.three_lines "feed" Sample.fresh
              ltac:(constructor)
              (mkStatement "c" "d" (Sample.uuids 1) "knows" "d" (Some "feed")
                           (Sample.times 0) (Sample.times 0)))
    as [[]|(Hs & Hp & Ho & _)].
  - right. left. reflexivity.
  - split; [exact Hs|]. split; [exact Hp | exact Ho].
Defined.

Lemma length_entities_after (ts : list (string * string * string))
    (entities : list string) :
  length (entities_after ts entities) <= length entities + length ts.
Proof.
  revert entities. induction ts as [|t ts IH]; intros entities; simpl.
  - lia.
  - etransitivity; [apply IH|].
    unfold Js.set_add. destruct (existsb _ _); [lia|].
    rewrite length_app. simpl. lia.
Qed.

(** On a store with unique identifiers [ingest] reads the clock once and,
    for each statement it reports, sends one query and draws one
    identifier; it reports no more entities than statements; and when it
    reports no statement, no query was sent and the graph is as it was. *)
Theorem ingest_sends_one_query_per_statement
    (data sourceName : string) (w : World) :
  unique_identifiers (graph w) ->
  exists (r : IngestResult) (w' : World),
    ingest data sourceName w = (Returned r, w')
    /\ length (backend_calls w') =
       length (backend_calls w) + statements_created r
    /\ uuid_drawn w' = uuid_drawn w + statements_created r
    /\ clock_reads w' = S (clock_reads w)
    /\ length (statements (graph w')) =
       length (statements (graph w)) + statements_created r
    /\ entities_created r <= statements_created r
    /\ (statements_created r = 0 ->
        graph w' = graph w /\ backend_calls w' = backend_calls w).
Proof.
  intros U. eexists _, _. split; [apply (ingest_run data sourceName w U)|].
  cbn [statements_created entities_created world_after_lines graph
       statements backend_calls uuid_drawn uuid_source clock clock_reads].
  rewrite !length_app, length_map, !length_ingested.
  repeat split.
  - apply (length_entities_after _ []).
  - destruct (accepted (ingest_lines data)); [|discriminate].
    cbn. rewrite app_nil_r. now destruct (graph w).
  - destruct (accepted (ingest_lines data)); [|discriminate].
    cbn. now rewrite app_nil_r.
Qed.

Lemma ingest_sends_one_query_per_statement_witness :
  exists (r : IngestResult) (w' : World),
    ingest "no comma here" "feed" Sample.fed = (Returned r, w')
    /\ statements_created r = 0
    /\ graph w' = graph Sample.fed
    /\ backend_calls w' = backend_calls Sample.fed.
Proof.
  destruct (ingest_sends_one_query_per_statement "no comma here" "feed"
              Sample.fed)
    as (r & w' & E & _ & _ & _ & _ & _ & H).
  - repeat constructor; simpl; intuition discriminate.
  - exists r, w'. split; [exact E|].
    assert (Z : statements_created r = 0).
    { injection E as <- _. reflexivity. }
    split; [exact Z|]. exact (H Z).
Defined.

(* ================================================================== *)
(** ** Blank lines *)

Lemma trimStart_empty_no_char (c : ascii) (s : string) :
  Js.is_space c = false -> Js.trim s = EmptyString -> has_char c s = false.
Proof.
  intros Hc. unfold Js.trim. induction s as [|d s IH]; [reflexivity|].
  cbn [Js.trimStart has_char]. destruct (Js.is_space d) eqn:Ed.
  - intros H. rewrite (IH H), orb_false_r.
    destruct (Ascii.eqb_spec d c) as [->|_]; [congruence | reflexivity].
  - intros H. destruct (trimEnd_keeps_first d s Ed) as (r & E).
    rewrite E in H. discriminate.
Qed.

Lemma split_without_separator (sep : ascii) (s : string) :
  has_char sep s = false -> Js.split sep s = [s].
Proof.
  induction s as [|d s IH]; [reflexivity|].
  cbn [has_char Js.split]. intros H.
  apply orb_false_iff in H as (Hd & Hs).
  now rewrite Hd, (IH Hs).
Qed.

Lemma blank_line_not_accepted (line : string) :
  Js.trim line = EmptyString -> three_fields line = None.
Proof.
  intros H. unfold three_fields.
  rewrite (split_without_separator "," line)
    by (apply trimStart_empty_no_char; [reflexivity | exact H]).
  reflexivity.
Qed.

(** The filter that drops blank lines changes nothing: the lines [ingest]
    accepts are those it would accept from all the lines of the data, so
    its loop does the same on both. *)
Theorem ingest_blank_filter_is_neutral (data : string) :
  accepted (ingest_lines data) = accepted (Js.split (ascii_of_nat 10) data)
  /\ forall sourceName now n entities w,
       unique_identifiers (graph w) ->
       ingest_loop (ingest_lines data) sourceName now n entities w =
       ingest_loop (Js.split (ascii_of_nat 10) data) sourceName now n
                   entities w.
Proof.
  assert (E : accepted (ingest_lines data) =
              accepted (Js.split (ascii_of_nat 10) data)).
  { unfold ingest_lines.
    induction (Js.split (ascii_of_nat 10) data) as [|l ls IH];
      [reflexivity|].
    cbn [filter accepted].
    destruct (Js.trim l) as [|c t] eqn:El; cbn [Js.truthy_string].
    - rewrite (blank_line_not_accepted l El). exact IH.
    - cbn [accepted]. now rewrite IH. }
  split; [exact E|].
  intros sourceName now n entities w U.
  rewrite !ingest_loop_run by exact U. now rewrite E.
Qed.

(* ================================================================== *)
(** ** The object node of a created statement *)

Lemma length_append (a b : string) :
  String.length (a ++ b) = String.length a + String.length b.
Proof. induction a as [|c a IH]; simpl; [reflexivity | now rewrite IH]. Qed.

Lemma escape_char_not_empty (c : ascii) :
  1 <= String.length (Json.escape_char c).
Proof.
  unfold Json.escape_char.
  repeat match goal with
         | |- context [if ?b then _ else _] => destruct b
         end; simpl; lia.
Qed.

Lemma length_escape (s : string) :
  String.length s <= String.length (Json.escape s).
Proof.
  induction s as [|c s IH]; simpl; [lia|].
  rewrite length_append. pose proof (escape_char_not_empty c). lia.
Qed.

Lemma length_quote (s : string) :
  String.length s + 2 <= String.length (Json.quote s).
Proof.
  unfold Json.quote. cbn [String.length]. rewrite length_append.
  pose proof (length_escape s). simpl. lia.
Qed.

(** [createStatement] with a string as [object_value] merges the quoted
    text as object node, which is longer than the string: on a store with
    unique identifiers that has no node for the string itself, there is
    none afterwards either, unless the string is the subject. The object
    node [ingest] merges for the same text is another one. *)
Theorem createStatement_never_merges_the_raw_text
    (input : StatementInput) (s : string) (w : World) :
  unique_identifiers (graph w) ->
  object_value input = JStr s ->
  s <> subject_identifier input ->
  ~ In s (identifiers (graph w)) ->
  ~ In s (identifiers (graph (snd (createStatement input w))))
  /\ In (Json.quote s) (identifiers (graph (snd (createStatement input w))))
  /\ String.length s + 2 <= String.length (Json.quote s)
  /\ forall sourceName now id subject predicate,
       st_object (ingested_statement sourceName now id
                                     (subject, predicate, s)) = s.
Proof.
  intros U Ev Hs Hn. rewrite (createStatement_run input w U).
  cbn [snd world_after_create graph identifiers stored_statement
       st_object st_subject].
  rewrite Ev. cbn [Json.stringify]. rewrite !set_add_In.
  pose proof (length_quote s) as L.
  split; [|split; [|split]].
  - intros [E|[E|H]].
    + rewrite <- E in L. lia.
    + contradiction.
    + contradiction.
  - now left.
  - exact L.
  - reflexivity.
Qed.

Lemma createStatement_never_merges_the_raw_text_witness :
  ~ In "bob" (identifiers
                (graph (snd (createStatement Sample.alice_knows_bob
                                             Sample.fed)))).
Proof.
  destruct (createStatement_never_merges_the_raw_text
              Sample.alice_knows_bob "bob" Sample.fed) as (H & _).
  - repeat constructor; simpl; intuition discriminate.
  - reflexivity.
  - discriminate.
  - simpl. intuition discriminate.
  - exact H.
Defined.

(* ================================================================== *)
(** ** Records of the HTTP client *)

Lemma own_get_set (key k : string) (v : option json)
    (o : list (string * option json)) :
  Neo4j.own_get (Neo4j.own_set k v o) key =
  if String.eqb k key then Some v else Neo4j.own_get o key.
Proof.
  induction o as [|[k' x] o IH]; simpl.
  - reflexivity.
  - destruct (String.eqb_spec k' k) as [->|N]; simpl.
    + destruct (String.eqb k key); reflexivity.
    + rewrite IH. destruct (String.eqb_spec k' key) as [->|N'].
      * destruct (String.eqb_spec k key); [congruence | reflexivity].
      * reflexivity.
Qed.

Lemma obj_set_plain (field : string) (v : option json) (o : Neo4j.js_object) :
  field <> "__proto__" ->
  Neo4j.obj_set field v o =
  Neo4j.mkObject (Neo4j.own_set field v (Neo4j.own o)) (Neo4j.proto o).
Proof.
  intros H. unfold Neo4j.obj_set.
  destruct (String.eqb_spec field "__proto__"); [contradiction | reflexivity].
Qed.

Lemma fill_proto (fields : list string) :
  ~ In "__proto__" fields ->
  forall i row o, Neo4j.proto (Neo4j.fill fields i row o) = Neo4j.proto o.
Proof.
  induction fields as [|f fields IH]; intros H i row o; [reflexivity|].
  cbn [Neo4j.fill]. rewrite IH by (intros Hin; apply H; now right).
  rewrite obj_set_plain; [reflexivity|].
  intros ->. apply H. now left.
Qed.

Lemma fill_other (fields : list string) (key : string) :
  ~ In "__proto__" fields -> ~ In key fields ->
  forall i row o,
    Neo4j.own_get (Neo4j.own (Neo4j.fill fields i row o)) key
    = Neo4j.own_get (Neo4j.own o) key.
Proof.
  induction fields as [|f fields IH]; intros P H i row o; [reflexivity|].
  cbn [Neo4j.fill].
  rewrite IH; [|intros Hin; apply P; now right
               |intros Hin; apply H; now right].
  rewrite obj_set_plain by (intros ->; apply P; now left).
  cbn [Neo4j.own]. rewrite own_get_set.
  destruct (String.eqb_spec f key) as [->|_]; [|reflexivity].
  exfalso. apply H. now left.
Qed.

Lemma fill_field (fields : list string) (key : string) :
  NoDup fields -> ~ In "__proto__" fields ->
  forall j i row o,
    nth_error fields j = Some key ->
    Neo4j.own_get (Neo4j.own (Neo4j.fill fields i row o)) key
    = Some (nth_error row (i + j)).
Proof.
  induction 1 as [|f fields Hf N IH]; intros P j i row o Hj.
  - destruct j; discriminate.
  - assert (P' : ~ In "__proto__" fields) by (intros Hin; apply P; now right).
    cbn [Neo4j.fill]. destruct j as [|j]; simpl in Hj.
    + injection Hj as ->. rewrite fill_other by assumption.
      rewrite obj_set_plain by (intros ->; apply P; now left).
      cbn [Neo4j.own]. rewrite own_get_set, String.eqb_refl.
      now rewrite Nat.add_0_r.
    + rewrite (IH P' j (S i) row _ Hj). do 2 f_equal. lia.
Qed.

Lemma get_combine_other (fields : list string) (key : string) :
  ~ In key fields -> forall row, get (combine fields row) key = None.
Proof.
  induction fields as [|f fields IH]; intros H row; [reflexivity|].
  destruct row as [|v row]; [reflexivity|]. simpl.
  destruct (String.eqb_spec f key) as [->|_].
  - exfalso. apply H. now left.
  - apply IH. intros Hin. apply H. now right.
Qed.

Lemma get_combine_field (fields : list string) (key : string) :
  NoDup fields ->
  forall j row,
    nth_error fields j = Some key -> length row = length fields ->
    get (combine fields row) key = nth_error row j.
Proof.
  induction 1 as [|f fields Hf N IH]; intros j row Hj Hl.
  - destruct j; discriminate.
  - destruct row as [|v row]; [discriminate|]. simpl.
    destruct j as [|j]; simpl in Hj.
    + injection Hj as ->. now rewrite String.eqb_refl.
    + destruct (String.eqb_spec f key) as [->|_].
      * exfalso. apply Hf. eapply nth_error_In. exact Hj.
      * cbn [nth_error]. apply IH; [exact Hj | simpl in Hl; lia].
Qed.

(** When the response is fine and the field names are pairwise different
    and none is [__proto__], [runQuery] gives one record per row of
    values. A record answers a field name with the value at the position of
    the name in its row ([undefined] when the row is too short); it answers
    a key that is no field with the member of [Object.prototype] of that
    name when there is one ([constructor], [toString], ...), and with
    [undefined] otherwise. For a row as long as the field list it answers a
    field, and a key that [Object.prototype] does not know, like the field
    and value pairs taken in order. *)
Theorem read_response_records
    (r : Neo4j.Response) (fields : list string) (values : list (list json)) :
  Neo4j.ok r = true ->
  Neo4j.errors r = None \/ Neo4j.errors r = Some [] ->
  Neo4j.data r = Some (Neo4j.mkResultData (Some fields) (Some values)) ->
  NoDup fields ->
  ~ In "__proto__" fields ->
  exists records : list Neo4j.js_object,
    Neo4j.read_response r = inr records
    /\ length records = length values
    /\ forall n row, nth_error values n = Some row ->
         exists o, nth_error records n = Some o
           /\ (forall j key, nth_error fields j = Some key ->
                 Neo4j.obj_get o key = Neo4j.Value (nth_error row j))
           /\ (forall key, ~ In key fields ->
                 Neo4j.obj_get o key =
                 if existsb (String.eqb key) Neo4j.object_prototype_names
                 then Neo4j.OfObjectPrototype key
                 else Neo4j.Value None)
           /\ (length row = length fields ->
               forall key,
                 In key fields \/ ~ In key Neo4j.object_prototype_names ->
                 Neo4j.obj_get o key
                 = Neo4j.Value (get (combine fields row) key)).
Proof.
  intros Hok Herr Hdata N P.
  exists (map (Neo4j.make_record fields) values).
  split; [|split].
  - unfold Neo4j.read_response. rewrite Hok, Hdata. cbn [negb].
    destruct Herr as [-> | ->]; reflexivity.
  - apply length_map.
  - intros n row Hn. exists (Neo4j.make_record fields row).
    split; [now rewrite nth_error_map, Hn|].
    assert (F : forall j key, nth_error fields j = Some key ->
              Neo4j.obj_get (Neo4j.make_record fields row) key
              = Neo4j.Value (nth_error row j)).
    { intros j key Hj. unfold Neo4j.make_record, Neo4j.obj_get.
      now rewrite (fill_field fields key N P j 0 row _ Hj). }
    assert (O : forall key, ~ In key fields ->
              Neo4j.obj_get (Neo4j.make_record fields row) key =
              if existsb (String.eqb key) Neo4j.object_prototype_names
              then Neo4j.OfObjectPrototype key
              else Neo4j.Value None).
    { intros key Hk. unfold Neo4j.make_record, Neo4j.obj_get.
      rewrite (fill_other fields key P Hk), (fill_proto fields P).
      reflexivity. }
    split; [exact F|]. split; [exact O|].
    intros Hl key Hkey.
    destruct (in_dec string_dec key fields) as [Hin|Hout].
    + apply In_nth_error in Hin as (j & Hj).
      now rewrite (F j key Hj), (get_combine_field fields key N j row Hj Hl).
    + destruct Hkey as [Hin|Hnot]; [contradiction|].
      rewrite (O key Hout), (get_combine_other fields key Hout).
      destruct (existsb (String.eqb key) Neo4j.object_prototype_names) eqn:E;
        [|reflexivity].
      exfalso. apply Hnot.
      apply existsb_exists in E as (x & Hx & Ex).
      apply String.eqb_eq in Ex. now subst.
Qed.

Lemma read_response_records_witness :
  exists records : list Neo4j.js_object,
    Neo4j.read_response sample_response = inr records
    /\ length records = 1.
Proof.
  destruct (read_response_records sample_response ["id"; "total"]
              [[JStr "x"; JNum 3]]) as (records & E & L & _).
  - reflexivity.
  - left. reflexivity.
  - reflexivity.
  - repeat constructor; simpl; intuition discriminate.
  - simpl. intuition discriminate.
  - exists records. split; [exact E | exact L].
Defined.

(** What the keys [Object.prototype] knows come to on a record. *)
Example record_inherits :
  let o := Neo4j.make_record ["id"] [JStr "x"] in
  Neo4j.obj_get o "id" = Neo4j.Value (Some (JStr "x"))
  /\ Neo4j.obj_get o "constructor" = Neo4j.OfObjectPrototype "constructor"
  /\ Neo4j.obj_get o "other" = Neo4j.Value None
  /\ Neo4j.own (Neo4j.make_record ["__proto__"] [JStr "x"]) = []
  /\ Neo4j.proto (Neo4j.make_record ["__proto__"] [JNull])
     = Neo4j.NullPrototype.
Proof. repeat split. Qed.

(* ================================================================== *)
(** ** The headers of the HTTP client *)

(** The client always sends the JSON content type. It sends an
    [Authorization] header exactly when both the user and the password are
    set to non-empty strings, an unset variable counting as an empty one;
    the header is then [Basic] followed by the encoded pair, and the mode
    the client prints is [Basic Auth] exactly in that case. *)
Theorem getHeaders_authorization
    (base64 : string -> string) (env : Neo4j.Env) :
  Neo4j.header "Content-Type" (Neo4j.getHeaders base64 env)
    = Some "application/json"
  /\ (Neo4j.header "Authorization" (Neo4j.getHeaders base64 env) <> None <->
      exists u p, Neo4j.env_NEO4J_USER env = Some u /\ u <> EmptyString
                  /\ Neo4j.env_NEO4J_PASSWORD env = Some p
                  /\ p <> EmptyString)
  /\ (forall u p,
        Neo4j.env_NEO4J_USER env = Some u -> u <> EmptyString ->
        Neo4j.env_NEO4J_PASSWORD env = Some p -> p <> EmptyString ->
        Neo4j.header "Authorization" (Neo4j.getHeaders base64 env)
          = Some ("Basic " ++ base64 (u ++ ":" ++ p)))
  /\ (Neo4j.authMode env = "Basic Auth" <->
      Neo4j.header "Authorization" (Neo4j.getHeaders base64 env) <> None)
  /\ (Neo4j.authMode env = "No Auth" <->
      Neo4j.getHeaders base64 env = [("Content-Type", "application/json")]).
Proof.
  destruct env as [url [[|c u]|] [[|d p]|]];
    unfold Neo4j.getHeaders, Neo4j.authMode, Neo4j.NEO4J_USER,
           Neo4j.NEO4J_PASSWORD;
    cbn [Neo4j.env_NEO4J_USER Neo4j.env_NEO4J_PASSWORD string_or
         Js.truthy_string andb app Neo4j.header String.eqb Ascii.eqb
         Bool.eqb];
    (split; [reflexivity|]);
    (split; [split; [try (intros H; now contradiction H);
                     try (intros _; eexists _, _; repeat split; discriminate)
                    | try (intros (? & ? & ? & ? & ? & ?);
                           congruence || discriminate)]|]);
    (split; [intros ? ? ? ? ? ?; congruence || discriminate|]);
    (split; split; intros H; try discriminate; try reflexivity;
       try (now contradiction H)).
Qed.

(* ================================================================== *)
(** ** Resolvers that answer about the same store *)

Lemma listed_subject (name : string) (l : list Statement) :
  In name (Listing.order_asc (Listing.distinct (map st_subject l))) <->
  exists e, In e l /\ Backend.has_subject name e = true.
Proof.
  split.
  - intros H. eapply Permutation_in in H; [|symmetry; apply order_asc_perm].
    apply distinct_In, in_map_iff in H as (e & E & He).
    exists e. split; [exact He|]. unfold Backend.has_subject.
    now apply String.eqb_eq.
  - intros (e & He & E). apply String.eqb_eq in E.
    eapply Permutation_in; [apply order_asc_perm|].
    apply distinct_In, in_map_iff. now exists e.
Qed.

(** On bounds that are not negative, [subjects] lists a name exactly when
    [statementsBySubject] of the name reports a positive [totalCount]. *)
Theorem subjects_are_the_names_with_statements
    (name : string) (limit offset : Z) (w : World) :
  (0 <= limit)%Z -> (0 <= offset)%Z ->
  exists (names : list (option json)) (p : StatementPage),
    fst (subjects w) = Returned names
    /\ fst (statementsBySubject name limit offset w) = Returned p
    /\ (In (Some (JStr name)) names <-> (0 < p_totalCount p)%Z).
Proof.
  intros Hl Ho.
  destruct (statementsBySubject_window name limit offset w Hl Ho) as (E & _).
  eexists _, _. split; [|split; [exact E|]].
  - rewrite subjects_run. reflexivity.
  - cbn [make_page p_totalCount Listing.subject_row get String.eqb].
    rewrite <- Z.ltb_lt, positive_length_filter, <- listed_subject.
    rewrite in_map_iff. split.
    + intros (s & Es & Hs). cbn in Es. now injection Es as ->.
    + intros H. exists name. split; [|exact H]. reflexivity.
Qed.

Lemma subjects_are_the_names_with_statements_witness :
  exists (names : list (option json)) (p : StatementPage),
    fst (subjects Sample.busy) = Returned names
    /\ fst (statementsBySubject "b" 10 0 Sample.busy) = Returned p
    /\ (In (Some (JStr "b")) names <-> (0 < p_totalCount p)%Z).
Proof.
  apply (subjects_are_the_names_with_statements "b" 10 0 Sample.busy); lia.
Defined.

(** On a store with unique identifiers, a statement just created is among
    the results of a search whose lower-cased query occurs in its
    lower-cased subject, as long as fewer than a hundred statements
    matched the query before. *)
Theorem created_statement_is_found_by_subject
    (input : StatementInput) (q : string) (w : World) :
  unique_identifiers (graph w) ->
  substring (Cypher.toLower q) (Cypher.toLower (subject_identifier input)) ->
  length (filter (Backend.search_match q) (statements (graph w))) < 100 ->
  exists found : list StatementView,
    fst (searchStatements q (snd (createStatement input w))) = Returned found
    /\ In (view (stored_statement input (uuid_source w (uuid_drawn w))
                                  (clock w (clock_reads w)))) found.
Proof.
  intros U Hq Hn. rewrite (createStatement_run input w U).
  rewrite searchStatements_run.
  cbn [fst snd world_after_create graph statements].
  eexists. split; [reflexivity|].
  set (e := stored_statement input _ _).
  assert (M : Backend.search_match q e = true).
  { apply search_match_spec. right. exact Hq. }
  rewrite filter_app. cbn [filter]. rewrite M.
  rewrite firstn_all2.
  - apply in_map, in_or_app. right. now left.
  - rewrite length_map, length_app. simpl. lia.
Qed.

Lemma created_statement_is_found_by_subject_witness :
  exists found : list StatementView,
    fst (searchStatements "ALI"
           (snd (createStatement Sample.alice_knows_bob Sample.fed)))
      = Returned found
    /\ In (view (stored_statement Sample.alice_knows_bob (Sample.uuids 2)
                                  (Sample.times 1))) found.
Proof.
  apply (created_statement_is_found_by_subject
           Sample.alice_knows_bob "ALI" Sample.fed).
  - repeat constructor; simpl; intuition discriminate.
  - exists EmptyString, "ce". reflexivity.
  - simpl. lia.
Defined.
